(** * HVSClib base routines ([src/hvsc/base.c]): a shallow embedding

    The development follows the C source function by function.  C strings
    are values of type [string] (the bytes before the terminating NUL; the
    terminator itself is implicit), a [char *] that walks through a string
    is the suffix it points at, heap blocks are lists of cells that may
    still be indeterminate, and the process-wide variables of the library
    ([hvsc_errno], the four root paths) live in one explicit [world] record
    that every function which touches them takes and returns. *)

From Stdlib Require Import ZArith Strings.String Strings.Ascii Lia Bool.
From stdpp Require Import base list.

Local Open Scope string_scope.
Local Open Scope list_scope.
Local Open Scope Z_scope.

(** ** C integer types *)

(** [long] is the 64-bit signed integer of the LP64 targets; arithmetic on
    it is taken modulo 2^64 and read back as a signed value. *)
Definition LONG_MAX : Z := 2 ^ 63 - 1.

Definition LONG_MIN : Z := - 2 ^ 63.

Definition wrap_long (z : Z) : Z := (z + 2 ^ 63) mod 2 ^ 64 - 2 ^ 63.

Definition long_add (a b : Z) : Z := wrap_long (a + b).

Definition long_sub (a b : Z) : Z := wrap_long (a - b).

Definition long_mul (a b : Z) : Z := wrap_long (a * b).

(** [size_t] is the 64-bit unsigned integer. *)
Definition SIZE_MAX : Z := 2 ^ 64 - 1.

Definition wrap_size (z : Z) : Z := z mod 2 ^ 64.

(** ** Characters and C strings *)

(** The value of a character as [unsigned char]. *)
Definition code (c : ascii) : Z := Z.of_N (N_of_ascii c).

Definition NUL : ascii := "000"%char.

(** [isdigit] of <ctype.h>: the ten decimal digits, in every locale. *)
Definition isdigit (c : ascii) : bool := (48 <=? code c) && (code c <=? 57).

(** [*t] for a pointer [t] into a string: past the last byte the
    terminating NUL is read. *)
Definition deref (t : string) : ascii :=
  match t with
  | String c _ => c
  | EmptyString => NUL
  end.

(** [t + 1] for a pointer that does not stand on the terminator. *)
Definition next (t : string) : string :=
  match t with
  | String _ t' => t'
  | EmptyString => EmptyString
  end.

(** [strlen] *)
Definition strlen (s : string) : Z := Z.of_nat (String.length s).

(** The memory that holds the C string [s]: the bytes of [s], then its
    terminator. Bytes behind the terminator are not part of the object and
    are not modelled. *)
Fixpoint bytes_of (s : string) : list ascii :=
  match s with
  | String c s' => c :: bytes_of s'
  | EmptyString => [NUL]
  end.

(** [memcmp(a, b, n)] on two byte arrays: the difference of the first pair
    of bytes that differ among the first [n], 0 when there is none. *)
Fixpoint memcmp (a b : list ascii) (n : nat) : Z :=
  match n with
  | O => 0
  | S n' =>
      match a, b with
      | x :: a', y :: b' =>
          if code x =? code y then memcmp a' b' n' else code x - code y
      | _, _ => 0
      end
  end.

(** [strncmp(a, b, n)]: like [memcmp], but the comparison also stops behind
    a NUL that both strings share. *)
Fixpoint strncmp (a b : string) (n : nat) : Z :=
  match n with
  | O => 0
  | S n' =>
      let x := deref a in
      let y := deref b in
      if code x =? code y then
        if code x =? 0 then 0 else strncmp (next a) (next b) n'
      else code x - code y
  end.

(** ** Error codes and the process-wide state *)

(** The error codes of [hvsc.h], numbered as the rows of
    [hvsc_err_messages] are. *)
Definition HVSC_ERR_OK : Z := 0.

Definition HVSC_ERR_IO : Z := 1.

Definition HVSC_ERR_FILE_TOO_LARGE : Z := 2.

Definition HVSC_ERR_GCRYPT : Z := 3.

Definition HVSC_ERR_TIMESTAMP : Z := 4.

Definition HVSC_ERR_NOT_FOUND : Z := 5.

Definition HVSC_ERR_INVALID : Z := 6.

Definition hvsc_err_messages : list string :=
  [ "OK";
    "I/O error";
    "file too large error";
    "libgcrypt error";
    "malformed timestamp";
    "object not found";
    "invalid data or operation" ].

Definition HVSC_ERR_CODE_COUNT : Z := Z.of_nat (length hvsc_err_messages).

Definition invalid_err_msg : string := "<unknown error code>".

Definition hvsc_strerror (n : Z) : string :=
  if (n <? 0) || (HVSC_ERR_CODE_COUNT <=? n) then invalid_err_msg
  else default invalid_err_msg (hvsc_err_messages !! Z.to_nat n).

(** The global variables of the library, and the two resources it takes
    from the C runtime: [heap_live] counts the heap blocks that are
    allocated and not yet freed, [streams_open] the [FILE] streams that are
    open. *)
Record world : Type := World {
  hvsc_errno : Z;
  hvsc_root_path : option string;
  hvsc_sldb_path : option string;
  hvsc_stil_path : option string;
  hvsc_bugs_path : option string;
  heap_live : Z;
  streams_open : Z
}.

Definition set_errno (e : Z) (w : world) : world :=
  World e (hvsc_root_path w) (hvsc_sldb_path w) (hvsc_stil_path w)
        (hvsc_bugs_path w) (heap_live w) (streams_open w).

Definition set_heap_live (n : Z) (w : world) : world :=
  World (hvsc_errno w) (hvsc_root_path w) (hvsc_sldb_path w)
        (hvsc_stil_path w) (hvsc_bugs_path w) n (streams_open w).

Definition set_streams_open (n : Z) (w : world) : world :=
  World (hvsc_errno w) (hvsc_root_path w) (hvsc_sldb_path w)
        (hvsc_stil_path w) (hvsc_bugs_path w) (heap_live w) n.

(** The state of a process that has not called into the library yet. *)
Definition world0 : world := World 0 None None None None 0 0.

(** ** Timestamp parser: [hvsc_parse_simple_timestamp] *)

(** [m = m * 10 + *t - '0'] on [long]. *)
Definition push_digit (acc : Z) (c : ascii) : Z :=
  long_sub (long_add (long_mul acc 10) (code c)) (code "0"%char).

(** [while (isdigit( *t)) { m = m * 10 + *t - '0'; t++; }] *)
Fixpoint minutes_loop (t : string) (m : Z) : Z * string :=
  match t with
  | String c t' =>
      if isdigit c then minutes_loop t' (push_digit m c) else (m, t)
  | EmptyString => (m, t)
  end.

(** The seconds loop; [None] is the [return -1] from inside the loop. *)
Fixpoint seconds_loop (t : string) (s : Z) : option (Z * string) :=
  match t with
  | String c t' =>
      if isdigit c then
        let s' := push_digit s c in
        if 59 <? s' then None else seconds_loop t' s'
      else Some (s, t)
  | EmptyString => Some (s, t)
  end.

(** [while (isdigit( *t) && fd < 3) { fd++; f = f * 10 + *t - '0'; t++; }] *)
Fixpoint fraction_loop (t : string) (f fd : Z) : Z * Z * string :=
  match t with
  | String c t' =>
      if isdigit c && (fd <? 3) then fraction_loop t' (push_digit f c) (fd + 1)
      else (f, fd, t)
  | EmptyString => (f, fd, t)
  end.

(** [while (fd++ < 3) { f *= 10; }]; [fd] is at least 1 here, so the body
    runs at most twice. *)
Fixpoint pad_loop (fuel : nat) (f fd : Z) : Z :=
  match fuel with
  | O => f
  | S fuel' => if fd <? 3 then pad_loop fuel' (long_mul f 10) (fd + 1) else f
  end.

(** [(m * 60 + s) * 1000 + f] on [long]. *)
Definition timestamp_total (m s f : Z) : Z :=
  long_add (long_mul (long_add (long_mul m 60) s) 1000) f.

(** The function proper. [endptr] is the caller's [char *] object as the
    call finds it ([None]: never assigned); the second component of the
    result is that object as the call leaves it. *)
Definition hvsc_parse_simple_timestamp
    (t : string) (endptr : option string) (w : world)
    : Z * option string * world :=
  let '(m, t) := minutes_loop t 0 in
  if negb (Ascii.eqb (deref t) ":") then
    (-1, Some t, set_errno HVSC_ERR_TIMESTAMP w)
  else
    let t := next t in
    match seconds_loop t 0 with
    | None => (-1, endptr, set_errno HVSC_ERR_TIMESTAMP w)
    | Some (s, t) =>
        if Ascii.eqb (deref t) "." then
          let t := next t in
          let '(f, fd, t) := fraction_loop t 0 0 in
          if fd =? 0 then (-1, endptr, set_errno HVSC_ERR_TIMESTAMP w)
          else (timestamp_total m s (pad_loop 3 f fd), Some t, w)
        else (timestamp_total m s 0, Some t, w)
    end.

(** ** Field-tag recognizer: [hvsc_get_field_type] *)

(** The table without its closing [NULL]. *)
Definition field_identifiers : list string :=
  [ " ARTIST:";
    " AUTHOR:";
    "    BUG:";
    "COMMENT:";
    "   NAME:";
    "  TITLE:" ].

Definition HVSC_FIELD_INVALID : Z := -1.

(** [while (field_identifiers[i] != NULL) { ... i++; }] over the rows that
    are left. *)
Fixpoint field_type_loop (s : string) (rows : list string) (i : Z) : Z :=
  match rows with
  | [] => HVSC_FIELD_INVALID
  | id :: rows' =>
      if strncmp s id 8 =? 0 then i else field_type_loop s rows' (i + 1)
  end.

Definition hvsc_get_field_type (s : string) : Z :=
  field_type_loop s field_identifiers 0.

(** The members of the field-type enumeration of [hvsc.h] that the
    statements below name, numbered as the rows of [field_identifiers]. *)
Definition HVSC_FIELD_TITLE : Z := 5.

(** ** Heap blocks and streams *)

(** A heap block: one cell per byte, [None] while the byte is
    indeterminate (fresh from [malloc], or the part a [realloc] added). *)
Abbreviation block := (list (option ascii)).

(** [hvsc_malloc(n)]; both builds abort the process rather than return
    [NULL], so a call that returns has its block. *)
Definition hvsc_malloc (n : Z) (w : world) : block * world :=
  (replicate (Z.to_nat n) None, set_heap_live (heap_live w + 1) w).

(** [hvsc_realloc(ptr, n)]: the old bytes up to the new size, the rest
    indeterminate; [ptr == NULL] makes it a [malloc]. *)
Definition hvsc_realloc (p : option block) (n : Z) (w : world) : block * world :=
  match p with
  | None => hvsc_malloc n w
  | Some b =>
      (take (Z.to_nat n) b ++ replicate (Z.to_nat n - length b)%nat None, w)
  end.

Definition hvsc_free (w : world) : world :=
  set_heap_live (heap_live w - 1) w.

(** [b[i] = c]; a store outside the block has no defined result. *)
Definition store (b : block) (i : Z) (c : ascii) : option block :=
  if (0 <=? i) && (i <? Z.of_nat (length b))
  then Some (<[Z.to_nat i := Some c]> b)
  else None.

(** [b[i] == c] for a byte that has been written. *)
Definition cell_is (b : block) (i : Z) (c : ascii) : bool :=
  match b !! Z.to_nat i with
  | Some (Some x) => Ascii.eqb x c
  | _ => false
  end.

(** [memcpy(dst, src, n)] between two blocks. *)
Definition memcpy (dst src : block) (n : Z) : option block :=
  if (0 <=? n) && (n <=? Z.of_nat (length dst)) && (n <=? Z.of_nat (length src))
  then Some (take (Z.to_nat n) src ++ drop (Z.to_nat n) dst)
  else None.

(** Writing the bytes [bs] into a block from index [off] on, as [fread]
    does with what it has read. *)
Definition store_bytes (b : block) (off : Z) (bs : list ascii) : option block :=
  if (0 <=? off) && (off + Z.of_nat (length bs) <=? Z.of_nat (length b))
  then Some (take (Z.to_nat off) b ++ map Some bs
             ++ drop (Z.to_nat off + length bs)%nat b)
  else None.

(** The C string that starts at the first cell of a block, for a caller
    that reads the pointer the library returned. *)
Fixpoint cstring_at (b : block) : option string :=
  match b with
  | Some c :: b' =>
      if code c =? 0 then Some EmptyString else String c <$> cstring_at b'
  | _ => None
  end.

(** A [FILE] opened for reading: the bytes not yet delivered, whether the
    device fails once they are used up (instead of reporting the end of the
    file), and the two indicators of the stream. *)
Record FILE : Type := Stream {
  pending : list ascii;
  faulty : bool;
  eof_ind : bool;
  err_ind : bool
}.

(** [fgetc]; [None] is [EOF]. *)
Definition fgetc (f : FILE) : option ascii * FILE :=
  match pending f with
  | c :: rest => (Some c, Stream rest (faulty f) (eof_ind f) (err_ind f))
  | [] =>
      if faulty f then (None, Stream [] true (eof_ind f) true)
      else (None, Stream [] false true (err_ind f))
  end.

(** [fread(ptr, 1, n, f)]: the bytes read (their number is the result of
    the call) and the stream afterwards. *)
Definition fread (n : Z) (f : FILE) : list ascii * FILE :=
  let got := take (Z.to_nat n) (pending f) in
  let rest := drop (Z.to_nat n) (pending f) in
  if Z.of_nat (length got) <? n then
    if faulty f then (got, Stream rest true (eof_ind f) true)
    else (got, Stream rest false true (err_ind f))
  else (got, Stream rest (faulty f) (eof_ind f) (err_ind f)).

Definition feof (f : FILE) : bool := eof_ind f.

(** The files that can be opened: for each path the bytes of the file and
    whether the device fails behind them. *)
Definition filesystem : Type := list (string * (list ascii * bool)).

(** [fopen(path, "rb")]: a fresh stream, both indicators clear; [None] is
    [NULL]. *)
Fixpoint fopen (fs : filesystem) (path : string) : option FILE :=
  match fs with
  | [] => None
  | (name, (bytes, bad)) :: fs' =>
      if String.eqb name path then Some (Stream bytes bad false false)
      else fopen fs' path
  end.

Definition fclose (w : world) : world :=
  set_streams_open (streams_open w - 1) w.

(** [hvsc_strdup]: the copy is a block of its own. *)
Definition hvsc_strdup (s : string) (w : world) : string * world :=
  (s, set_heap_live (heap_live w + 1) w).

(** ** Buffered text reader *)

Definition READFILE_LINE_SIZE : Z := 1024.

(** [hvsc_text_file_t] of [hvsc.h], with the members that
    [hvsc_text_file_init_handle] sets. *)
Record hvsc_text_file_t : Type := Handle {
  fp : option FILE;
  path : option string;
  lineno : Z;
  linelen : Z;
  buffer : option block;
  prevbuf : option block;
  buflen : Z
}.

Definition hvsc_text_file_init_handle (handle : hvsc_text_file_t)
    : hvsc_text_file_t :=
  Handle None None 0 0 None None 0.

(** [hvsc_text_file_open]: the result, the handle and the globals as the
    call leaves them. *)
Definition hvsc_text_file_open
    (fs : filesystem) (p : string) (handle : hvsc_text_file_t) (w : world)
    : bool * hvsc_text_file_t * world :=
  let handle := hvsc_text_file_init_handle handle in
  match fopen fs p with
  | None => (false, handle, set_errno HVSC_ERR_IO w)
  | Some f =>
      let w := set_streams_open (streams_open w + 1) w in
      let '(p', w) := hvsc_strdup p w in
      let '(b, w) := hvsc_malloc READFILE_LINE_SIZE w in
      let '(pb, w) := hvsc_malloc READFILE_LINE_SIZE w in
      (* memset(..., 0, sizeof *(handle->buffer)): one byte each *)
      let b := <[0%nat := Some NUL]> b in
      let pb := <[0%nat := Some NUL]> pb in
      (true, Handle (Some f) (Some p') 0 (linelen handle) (Some b) (Some pb)
                    READFILE_LINE_SIZE, w)
  end.

(** [hvsc_text_file_close] *)
Definition hvsc_text_file_close (handle : hvsc_text_file_t) (w : world)
    : hvsc_text_file_t * world :=
  let w := if path handle is Some _ then hvsc_free w else w in
  let w := if buffer handle is Some _ then hvsc_free w else w in
  let w := if prevbuf handle is Some _ then hvsc_free w else w in
  let w := if fp handle is Some _ then fclose w else w in
  (Handle None None (lineno handle) (linelen handle) None None (buflen handle),
   w).

(** The body of [if (i == handle->buflen - 1)]: double [buflen] and
    reallocate both buffers to it. *)
Definition grow_buffers (handle : hvsc_text_file_t) (w : world)
    : hvsc_text_file_t * world :=
  let n := wrap_size (buflen handle * 2) in
  let '(b, w) := hvsc_realloc (buffer handle) n w in
  let '(pb, w) := hvsc_realloc (prevbuf handle) n w in
  (Handle (fp handle) (path handle) (lineno handle) (linelen handle)
          (Some b) (Some pb) n, w).

Definition with_stream (f : FILE) (h : hvsc_text_file_t) : hvsc_text_file_t :=
  Handle (Some f) (path h) (lineno h) (linelen h) (buffer h) (prevbuf h)
         (buflen h).

Definition with_buffer (b : block) (h : hvsc_text_file_t) : hvsc_text_file_t :=
  Handle (fp h) (path h) (lineno h) (linelen h) (Some b) (prevbuf h)
         (buflen h).

Definition LF : ascii := "010"%char.

Definition CR : ascii := "013"%char.

(** The [while (true)] of [hvsc_text_file_read], one round per unit of
    fuel. The result is the string behind the returned pointer ([None]
    for [NULL]), the handle and the globals; the outer [option] is [None]
    when the fuel is used up or the C code steps outside a block. *)
Fixpoint text_file_read_loop
    (fuel : nat) (handle : hvsc_text_file_t) (i : Z) (w : world)
    : option (option string * hvsc_text_file_t * world) :=
  match fuel with
  | O => None
  | S fuel' =>
      let '(handle, w) :=
        if i =? wrap_size (buflen handle - 1) then grow_buffers handle w
        else (handle, w) in
      f ← fp handle;
      let '(ch, f) := fgetc f in
      let handle := with_stream f handle in
      b ← buffer handle;
      match ch with
      | None =>
          if feof f then
            b ← store b i NUL;
            let handle := with_buffer b handle in
            if i =? 0 then Some (None, handle, w)
            else s ← cstring_at b; Some (Some s, handle, w)
          else Some (None, handle, set_errno HVSC_ERR_IO w)
      | Some c =>
          if Ascii.eqb c LF then
            b ← store b i NUL;
            '(b, i) ← (if (0 <? i)
                          && cell_is b (i - 1) CR
                       then b' ← store b (i - 1) NUL; Some (b', i - 1)
                       else Some (b, i));
            s ← cstring_at b;
            Some (Some s,
                  Handle (fp handle) (path handle) (long_add (lineno handle) 1)
                         i (Some b) (prevbuf handle) (buflen handle),
                  w)
          else
            b ← store b i c;
            text_file_read_loop fuel' (with_buffer b handle) (i + 1) w
      end
  end.

(** [hvsc_text_file_read]: every round of the loop either returns or takes
    a byte from the stream, so one round more than there are bytes is
    enough. *)
Definition hvsc_text_file_read (handle : hvsc_text_file_t) (w : world)
    : option (option string * hvsc_text_file_t * world) :=
  b ← buffer handle;
  pb ← prevbuf handle;
  pb ← memcpy pb b (buflen handle);
  f ← fp handle;
  text_file_read_loop (S (length (pending f)))
    (Handle (fp handle) (path handle) (lineno handle) (linelen handle)
            (buffer handle) (Some pb) (buflen handle))
    0 w.

(** ** Bulk file loader *)

Definition READFILE_BLOCK_SIZE : Z := 65536.

(** The [while (true)] of [hvsc_read_file]. The result is the returned
    [long], the caller's [*dest] and the globals. *)
Fixpoint read_file_loop
    (fuel : nat) (fd : FILE) (data : block) (offset size : Z) (w : world)
    : option (Z * option block * world) :=
  match fuel with
  | O => None
  | S fuel' =>
      let '(size, (data, w)) :=
        if offset =? size
        then (wrap_size (size * 2),
              hvsc_realloc (Some data) (wrap_size (size * 2)) w)
        else (size, (data, w)) in
      let '(got, fd) := fread READFILE_BLOCK_SIZE fd in
      data ← store_bytes data offset got;
      let result := Z.of_nat (length got) in
      if result <? READFILE_BLOCK_SIZE then
        if feof fd then
          Some (wrap_long (wrap_size (offset + result)), Some data, fclose w)
        else
          Some (-1, None, fclose (hvsc_free (set_errno HVSC_ERR_IO w)))
      else
        read_file_loop fuel' fd data
          (wrap_size (offset + READFILE_BLOCK_SIZE)) size w
  end.

(** [hvsc_read_file]; [dest] is the caller's pointer object as the call
    finds it. Every round that does not return takes a full chunk from the
    stream, so one round more than there are bytes is enough. *)
Definition hvsc_read_file
    (fs : filesystem) (dest : option block) (p : string) (w : world)
    : option (Z * option block * world) :=
  match fopen fs p with
  | None => Some (-1, dest, set_errno HVSC_ERR_IO w)
  | Some fd =>
      let w := set_streams_open (streams_open w + 1) w in
      let '(data, w) := hvsc_malloc READFILE_BLOCK_SIZE w in
      read_file_loop (S (length (pending fd))) fd data 0 READFILE_BLOCK_SIZE w
  end.

(** ** Path utilities *)

Section Paths.

(** The build switch of [hvsc_paths_join] and the three file names of
    [hvsc_defs.h]. *)
Variable WINDOWS_COMPILE : bool.
Variables HVSC_SLDB_FILE HVSC_STIL_FILE HVSC_BUGS_FILE : string.

Definition dir_separator : ascii :=
  if WINDOWS_COMPILE then "\"%char else "/"%char.

(** [hvsc_paths_join], the code of the stand-alone build: [p1], the
    separator, [p2] and its terminator, copied into a fresh block. *)
Definition hvsc_paths_join (p1 p2 : option string) (w : world)
    : option string * world :=
  match p1, p2 with
  | Some a, Some b =>
      (Some (a ++ String dir_separator b)%string,
       set_heap_live (heap_live w + 1) w)
  | _, _ => (None, w)
  end.

(** [hvsc_set_paths] *)
Definition hvsc_set_paths (p : string) (w : world) : world :=
  let '(root, w) := hvsc_strdup p w in
  let '(sldb, w) := hvsc_paths_join (Some root) (Some HVSC_SLDB_FILE) w in
  let '(stil, w) := hvsc_paths_join (Some root) (Some HVSC_STIL_FILE) w in
  let '(bugs, w) := hvsc_paths_join (Some root) (Some HVSC_BUGS_FILE) w in
  World (hvsc_errno w) (Some root) sldb stil bugs (heap_live w)
        (streams_open w).

End Paths.

(** [hvsc_free_paths] *)
Definition hvsc_free_paths (w : world) : world :=
  let w := if hvsc_root_path w is Some _ then hvsc_free w else w in
  let w := if hvsc_sldb_path w is Some _ then hvsc_free w else w in
  let w := if hvsc_stil_path w is Some _ then hvsc_free w else w in
  let w := if hvsc_bugs_path w is Some _ then hvsc_free w else w in
  World (hvsc_errno w) None None None None (heap_live w) (streams_open w).

(** [path + n] *)
Fixpoint advance (t : string) (n : nat) : string :=
  match n with
  | O => t
  | S n' => advance (next t) n'
  end.

(** The bytes behind [hvsc_root_path]; nothing behind [NULL]. *)
Definition root_bytes (w : world) : list ascii :=
  match hvsc_root_path w with
  | Some r => bytes_of r
  | None => []
  end.

(** [hvsc_path_strip_root] *)
Definition hvsc_path_strip_root (p : string) (w : world) : string * world :=
  let plen := strlen p in
  let rlen :=
    match hvsc_root_path w with
    | None => 0
    | Some r => strlen r
    end in
  if rlen =? 0 then hvsc_strdup p w
  else if plen <=? rlen then hvsc_strdup p w
  else if memcmp (bytes_of p) (root_bytes w) (Z.to_nat rlen) =? 0 then
    (* memcpy(result, path + rlen, plen - rlen + 1) into a fresh block *)
    (advance p (Z.to_nat rlen), set_heap_live (heap_live w + 1) w)
  else hvsc_strdup p w.

(** [hvsc_path_is_hvsc] *)
Definition hvsc_path_is_hvsc (p : string) (w : world) : bool :=
  match hvsc_root_path w with
  | None => false
  | Some r =>
      let plen := strlen p in
      let rlen := strlen r in
      if plen <=? rlen then false
      else memcmp (bytes_of p) (bytes_of r) (Z.to_nat rlen) =? 0
  end.

(** ** Further routines of [base.c] *)

(** [int] is the 32-bit signed integer; [uint16_t] and [uint32_t] are what
    their names say. *)
Definition wrap_int (z : Z) : Z := (z + 2 ^ 31) mod 2 ^ 32 - 2 ^ 31.

Definition to_uint16 (z : Z) : Z := z mod 2 ^ 16.

Definition to_uint32 (z : Z) : Z := z mod 2 ^ 32.

(** [isspace] of <ctype.h> in the "C" locale, which is the one a program
    runs in unless it calls [setlocale]: blank, and the five control
    characters from horizontal tab to carriage return. *)
Definition isspace (c : ascii) : bool :=
  (code c =? 32) || ((9 <=? code c) && (code c <=? 13)).

(** [while ( *s != '\0' && isspace((unsigned char)*s)) { s++; }]: the
    pointer the loop ends on. *)
Fixpoint skip_space (s : string) : string :=
  match s with
  | String c s' =>
      if negb (code c =? 0) && isspace c then skip_space s' else s
  | EmptyString => s
  end.

(** [hvsc_string_is_empty] *)
Definition hvsc_string_is_empty (s : string) : bool :=
  Ascii.eqb (deref (skip_space s)) NUL.

(** [hvsc_string_is_comment] *)
Definition hvsc_string_is_comment (s : string) : bool :=
  Ascii.eqb (deref (skip_space s)) "#".

(** [hvsc_path_fix_separators]: the string as the loop leaves it in
    place. *)
Fixpoint hvsc_path_fix_separators (p : string) : string :=
  match p with
  | String c p' =>
      String (if Ascii.eqb c "\" then "/"%char else c)
             (hvsc_path_fix_separators p')
  | EmptyString => EmptyString
  end.

(** [strncpy(dst, src, n)]: the bytes of [src] up to [n] of them, and NULs
    for what is missing to [n]. *)
Definition strncpy (dst : block) (src : string) (n : Z) : option block :=
  let bs := take (Z.to_nat n) (list_ascii_of_string src) in
  store_bytes dst 0 (bs ++ replicate (Z.to_nat n - length bs)%nat NUL).

(** [hvsc_strndup]: the block the function returns. *)
Definition hvsc_strndup (s : string) (n : Z) (w : world) : option block * world :=
  let '(t, w) := hvsc_malloc (wrap_size (n + 1)) w in
  (t ← strncpy t s n; store t n NUL, w).

(** [hvsc_strdup] in the stand-alone build, at the level of the block:
    [malloc(len + 1u)], then [memcpy(t, s, len + 1u)]. *)
Definition hvsc_strdup_mem (s : string) (w : world) : option block * world :=
  let len := strlen s in
  let '(t, w) := hvsc_malloc (wrap_size (len + 1)) w in
  (store_bytes t 0 (take (Z.to_nat (wrap_size (len + 1))) (bytes_of s)), w).

(** [hvsc_paths_join] in the stand-alone build, at the level of the block:
    the three copies into [malloc(len1 + len2 + 2u)]. *)
Definition hvsc_paths_join_mem
    (WINDOWS_COMPILE : bool) (p1 p2 : option string) (w : world)
    : option (option block) * world :=
  match p1, p2 with
  | Some a, Some b =>
      let len1 := strlen a in
      let len2 := strlen b in
      let '(result, w) := hvsc_malloc (wrap_size (len1 + len2 + 2)) w in
      (Some <$>
         (result ← store_bytes result 0
                     (take (Z.to_nat len1) (bytes_of a));
          result ← store result len1 (dir_separator WINDOWS_COMPILE);
          store_bytes result (wrap_size (len1 + 1))
            (take (Z.to_nat (wrap_size (len2 + 1))) (bytes_of b))),
       w)
  | _, _ => (Some None, w)
  end.

(** The display strings, without the closing [NULL]. *)
Definition field_displays : list string :=
  [ " {artist}";
    " {author}";
    "    {bug}";
    "{comment}";
    "   {name}";
    "  {title}" ].

(** Modelled from the spec: [HVSC_FIELD_TYPE_COUNT] of [hvsc.h], the number
    of members of the closed enumeration ARTIST, AUTHOR, BUG, COMMENT,
    NAME, TITLE. *)
Definition HVSC_FIELD_TYPE_COUNT : Z := 6.

(** [hvsc_get_field_display] *)
Definition hvsc_get_field_display (type : Z) : string :=
  if (type <? 0) || (HVSC_FIELD_TYPE_COUNT <=? type) then "<invalid>"
  else default "<invalid>" (field_displays !! Z.to_nat type).

(** [src[i]] for a [const uint8_t *src], promoted to [int]; nothing
    defined behind the end of the array. *)
Definition byte_at (src : list ascii) (i : nat) : option Z :=
  code <$> src !! i.

(** [hvsc_get_word_be]: the value stored to [*dest]. *)
Definition hvsc_get_word_be (src : list ascii) : option Z :=
  b0 ← byte_at src 0;
  b1 ← byte_at src 1;
  Some (to_uint16 (wrap_int (wrap_int (Z.shiftl b0 8) + b1))).

(** [hvsc_get_word_le] *)
Definition hvsc_get_word_le (src : list ascii) : option Z :=
  b1 ← byte_at src 1;
  b0 ← byte_at src 0;
  Some (to_uint16 (wrap_int (wrap_int (Z.shiftl b1 8) + b0))).

(** [hvsc_get_longword_be]; the shifts and sums are done in [int]. *)
Definition hvsc_get_longword_be (src : list ascii) : option Z :=
  b0 ← byte_at src 0;
  b1 ← byte_at src 1;
  b2 ← byte_at src 2;
  b3 ← byte_at src 3;
  Some (to_uint32
          (wrap_int
             (wrap_int
                (wrap_int (wrap_int (Z.shiftl b0 24) + wrap_int (Z.shiftl b1 16))
                 + wrap_int (Z.shiftl b2 8))
              + b3))).

(** Modelled from the spec: [HVSC_DIGEST_SIZE] of [hvsc_defs.h], the 16
    bytes of an MD5 hash. *)
Definition HVSC_DIGEST_SIZE : Z := 16.

(** [static const char digits[] = "0123456789abcdef"] *)
Definition digits : list ascii := list_ascii_of_string "0123456789abcdef".

(** [digits[k]] *)
Definition digit_at (k : Z) : option ascii := digits !! Z.to_nat k.

(** The [for] loop of [hvsc_md5_digest], [n] rounds from index [i] on. *)
Fixpoint digest_loop (n : nat) (i : Z) (hash : list ascii) (digest : block)
    : option block :=
  match n with
  | O => store digest (i * 2) NUL
  | S n' =>
      h ← byte_at hash (Z.to_nat i);
      hi ← digit_at (Z.shiftr h 4);
      lo ← digit_at (Z.land h 15);
      digest ← store digest (i * 2 + 0) hi;
      digest ← store digest (i * 2 + 1) lo;
      digest_loop n' (i + 1) hash digest
  end.

Section Digest.

(** [md5File] of [md5.h]: the hash of the bytes a stream delivers. *)
Variable md5File : list ascii -> list ascii.

(** [hvsc_md5_digest]: the result, the caller's [digest] buffer and the
    globals as the call leaves them. *)
Definition hvsc_md5_digest
    (fs : filesystem) (psid : string) (digest : block) (w : world)
    : option (bool * block * world) :=
  match fopen fs psid with
  | None => Some (false, digest, set_errno HVSC_ERR_IO w)
  | Some fp =>
      let w := set_streams_open (streams_open w + 1) w in
      let hash := md5File (pending fp) in
      let w := fclose w in
      digest ← digest_loop (Z.to_nat HVSC_DIGEST_SIZE) 0 hash digest;
      Some (true, digest, w)
  end.

End Digest.

(** ** Vocabulary of the statements *)

Definition all_digits (s : string) : bool :=
  forallb isdigit (list_ascii_of_string s).

(** The number a run of decimal digits denotes, continuing from [acc]. *)
Fixpoint digits_acc (s : string) (acc : Z) : Z :=
  match s with
  | String c s' => digits_acc s' (acc * 10 + (code c - 48))
  | EmptyString => acc
  end.

Definition digits_val (s : string) : Z := digits_acc s 0.

(** A timestamp as text: minutes, colon, seconds and, when there is one,
    a dot and the fraction. *)
Definition timestamp_text (M SS : string) (frac : option string) : string :=
  (M ++ String ":" (SS ++
     match frac with
     | Some F => String "." F
     | None => EmptyString
     end))%string.

(** The milliseconds a fraction of one to three digits stands for: the
    digits padded with zeros on the right to three. *)
Definition fraction_ms (frac : option string) : Z :=
  match frac with
  | Some F => digits_val F * 10 ^ (3 - strlen F)
  | None => 0
  end.

Definition fraction_ok (frac : option string) : Prop :=
  match frac with
  | Some F => all_digits F = true /\ 1 <= strlen F <= 3
  | None => True
  end.

(** The first eight bytes of a line (all of it when it is shorter). *)
Definition first8 (s : string) : string := substring 0 8 s.

(** A tag literal: at least [n] bytes, none of the first [n] a NUL. *)
Fixpoint plain_prefix (n : nat) (s : string) : bool :=
  match n, s with
  | O, _ => true
  | S n', String c s' => negb (code c =? 0) && plain_prefix n' s'
  | S _, EmptyString => false
  end.

(** The first [n] bytes of a string. *)
Definition first_bytes (n : nat) (s : string) : string := substring 0 n s.

(** A caller that joins [root] and [x], strips the root from the result
    and keeps both strings: the joined path and what is left of it. *)
Definition strip_joined (WINDOWS_COMPILE : bool) (root x : string) (w : world)
    : option (string * string * world) :=
  let '(j, w) := hvsc_paths_join WINDOWS_COMPILE (Some root) (Some x) w in
  j ← j;
  let '(s, w) := hvsc_path_strip_root j w in
  Some (j, s, w).

(** The round trip of the specification: the stripped path joined to the
    root again, next to the path that was joined first. *)
Definition join_strip_join (WINDOWS_COMPILE : bool) (root x : string) (w : world)
    : option (string * string) :=
  '(j, s, w) ← strip_joined WINDOWS_COMPILE root x w;
  j' ← (hvsc_paths_join WINDOWS_COMPILE (Some root) (Some s) w).1;
  Some (j', j).

(** A process that has set its root to [/hvsc]. *)
Definition hvsc_world : world :=
  hvsc_set_paths false "DOCUMENTS/Songlengths.md5" "DOCUMENTS/STIL.txt"
    "DOCUMENTS/BUGlist.txt" "/hvsc" world0.

(** The first [n] cells of a block have been written. *)
Definition written (b : block) (n : nat) : Prop :=
  forall j, (j < n)%nat -> exists c, b !! j = Some (Some c).

(** The bytes of the two files of the reader's examples. *)
Definition two_lines_crlf : list ascii :=
  list_ascii_of_string "line1" ++ [CR; LF]
  ++ list_ascii_of_string "line2" ++ [LF].

Definition lastline_bytes : list ascii := list_ascii_of_string "lastline".

(** What a caller sees of a run of reads: the strings with the line
    numbers, and [hvsc_errno] at the end. *)
Definition seen
    (r : option (list (option string * Z) * hvsc_text_file_t * world))
    : option (list (option string * Z) * Z) :=
  '(lines, _, w) ← r; Some (lines, hvsc_errno w).

(** Both line buffers of a handle are absent, or both are there with
    [buflen] cells each. *)
Definition capacity_inv (h : hvsc_text_file_t) : Prop :=
  match buffer h, prevbuf h with
  | Some b, Some pb =>
      Z.of_nat (length b) = buflen h /\ Z.of_nat (length pb) = buflen h
      /\ 1 <= buflen h <= SIZE_MAX
  | None, None => True
  | _, _ => False
  end.

(** A handle that [hvsc_text_file_read] may be called on. *)
Definition readable (h : hvsc_text_file_t) : Prop :=
  is_Some (fp h) /\ is_Some (buffer h) /\ is_Some (prevbuf h).

(** The bytes the stream of a handle still holds. *)
Definition unread (h : hvsc_text_file_t) : Z :=
  match fp h with
  | Some f => Z.of_nat (length (pending f))
  | None => 0
  end.

(** A caller that reads [n] times in a row and notes, for each call, the
    string it got and the line number afterwards. *)
Fixpoint read_lines (n : nat) (h : hvsc_text_file_t) (w : world)
    : option (list (option string * Z) * hvsc_text_file_t * world) :=
  match n with
  | O => Some ([], h, w)
  | S n' =>
      '(s, h1, w1) ← hvsc_text_file_read h w;
      '(rest, h2, w2) ← read_lines n' h1 w1;
      Some ((s, lineno h1) :: rest, h2, w2)
  end.

(** What the loader's result is, given the bytes [done] it has stored,
    the bytes [rest] the stream still holds, and whether the stream ends
    in a failure. *)
Definition loader_result
    (done rest : list ascii) (bad : bool) (w : world)
    (r : option (Z * option block * world)) : Prop :=
  if bad then
    r = Some (-1, None, fclose (hvsc_free (set_errno HVSC_ERR_IO w)))
  else
    exists data k,
      r = Some (Z.of_nat (length done + length rest), Some data, fclose w)
      /\ take (length done + length rest)%nat data = map Some (done ++ rest)
      /\ Z.of_nat (length data) = READFILE_BLOCK_SIZE * 2 ^ k /\ 0 <= k.

(** A small file system for the worked examples. *)
Definition example_fs : filesystem :=
  [ ("crlf.txt", (two_lines_crlf, false));
    ("last.txt", (lastline_bytes, false));
    ("empty.bin", ([], false));
    ("bad.bin", (lastline_bytes, true)) ].

(** The handles a program can get to with the three calls of the reader,
    reading only from streams of fewer than 2^63 - 1 bytes. *)
Inductive reachable : hvsc_text_file_t -> Prop :=
  | reach_init (h : hvsc_text_file_t) :
      reachable (hvsc_text_file_init_handle h)
  | reach_open (fs : filesystem) (p : string) (h : hvsc_text_file_t)
               (w : world) :
      reachable (hvsc_text_file_open fs p h w).1.2
  | reach_read (h h' : hvsc_text_file_t) (w w' : world) (s : option string) :
      reachable h -> unread h + 1 < 2 ^ 63 ->
      hvsc_text_file_read h w = Some (s, h', w') ->
      reachable h'
  | reach_close (h : hvsc_text_file_t) (w : world) :
      reachable h -> reachable (hvsc_text_file_close h w).1.

(** ** Vocabulary of the further statements *)

(** No byte of the string is a NUL: the string is all of a C string. *)
Definition nul_free (s : string) : bool :=
  forallb (fun c => negb (code c =? 0)) (list_ascii_of_string s).

(** A line without its final carriage return, when it has one. *)
Definition strip_cr (l : list ascii) : list ascii :=
  match last l with
  | Some c => if Ascii.eqb c CR then take (length l - 1)%nat l else l
  | None => l
  end.

(** The value of a hexadecimal digit, lower case. *)
Definition unhex_digit (c : ascii) : option Z :=
  (fun p => Z.of_nat p.1) <$> list_find (Ascii.eqb c) digits.

(** Two hexadecimal digits for each byte, read back. *)
Fixpoint unhex (cs : list ascii) : option (list Z) :=
  match cs with
  | [] => Some []
  | hi :: lo :: cs' =>
      h ← unhex_digit hi;
      l ← unhex_digit lo;
      rest ← unhex cs';
      Some (16 * h + l :: rest)
  | _ => None
  end.

(** How a timestamp may be followed: with no fraction, by something that
    is neither a digit nor a dot; with a fraction of fewer than three
    digits, by something that is no digit; with one of three, by
    anything. *)
Definition may_follow (frac : option string) (rest : string) : Prop :=
  match frac with
  | None =>
      isdigit (deref rest) = false /\ Ascii.eqb (deref rest) "." = false
  | Some F => strlen F = 3 \/ isdigit (deref rest) = false
  end.

(** The big-endian bytes of a number below [256 ^ n]. *)
Fixpoint be_bytes (n : nat) (v : Z) : list ascii :=
  match n with
  | O => []
  | S n' =>
      be_bytes n' (v / 256) ++ [ascii_of_N (Z.to_N (v mod 256))]
  end.

(** The hexadecimal digit for a value below 16. *)
Definition hex_digit (k : Z) : ascii := default NUL (digit_at k).

(** Two lower-case hexadecimal digits for each byte, high half first. *)
Definition hex_of (hash : list ascii) : list ascii :=
  flat_map (fun h => [hex_digit (Z.shiftr (code h) 4);
                      hex_digit (Z.land (code h) 15)]) hash.

(** * Theorems *)

(** ** Arithmetic on [long] *)

Lemma wrap_long_range (z : Z) : LONG_MIN <= wrap_long z <= LONG_MAX.
Proof.
  unfold wrap_long, LONG_MIN, LONG_MAX.
  pose proof (Z.mod_pos_bound (z + 2 ^ 63) (2 ^ 64)). lia.
Qed.

Lemma wrap_long_small (z : Z) : LONG_MIN <= z <= LONG_MAX -> wrap_long z = z.
Proof.
  unfold wrap_long, LONG_MIN, LONG_MAX. intros Hz.
  rewrite Z.mod_small by lia. lia.
Qed.

Lemma wrap_long_shift (z k : Z) : wrap_long (z + k * 2 ^ 64) = wrap_long z.
Proof.
  unfold wrap_long.
  replace (z + k * 2 ^ 64 + 2 ^ 63) with (z + 2 ^ 63 + k * 2 ^ 64) by lia.
  now rewrite Z_mod_plus_full.
Qed.

Lemma wrap_long_congr (z : Z) : exists k, wrap_long z = z + k * 2 ^ 64.
Proof.
  exists (- ((z + 2 ^ 63) / 2 ^ 64)). unfold wrap_long.
  pose proof (Z_div_mod_eq_full (z + 2 ^ 63) (2 ^ 64)). lia.
Qed.

Lemma long_add_wrap_l (a b : Z) : long_add (wrap_long a) b = wrap_long (a + b).
Proof.
  unfold long_add. destruct (wrap_long_congr a) as [k ->].
  replace (a + k * 2 ^ 64 + b) with (a + b + k * 2 ^ 64) by lia.
  apply wrap_long_shift.
Qed.

Lemma long_sub_wrap_l (a b : Z) : long_sub (wrap_long a) b = wrap_long (a - b).
Proof.
  unfold long_sub. destruct (wrap_long_congr a) as [k ->].
  replace (a + k * 2 ^ 64 - b) with (a - b + k * 2 ^ 64) by lia.
  apply wrap_long_shift.
Qed.

Lemma long_mul_wrap_l (a b : Z) : long_mul (wrap_long a) b = wrap_long (a * b).
Proof.
  unfold long_mul. destruct (wrap_long_congr a) as [k ->].
  replace ((a + k * 2 ^ 64) * b) with (a * b + (k * b) * 2 ^ 64) by lia.
  apply wrap_long_shift.
Qed.

(** Whatever the accumulator has wrapped to, a digit step keeps it
    congruent to the exact decimal value. *)
Lemma push_digit_wrap (a : Z) (c : ascii) :
  push_digit (wrap_long a) c = wrap_long (a * 10 + (code c - 48)).
Proof.
  unfold push_digit. change (code "0") with 48.
  rewrite long_mul_wrap_l, long_add_wrap_l, long_sub_wrap_l. f_equal. lia.
Qed.

Lemma timestamp_total_wrap (m s f : Z) :
  timestamp_total (wrap_long m) s f = wrap_long ((m * 60 + s) * 1000 + f).
Proof.
  unfold timestamp_total.
  rewrite long_mul_wrap_l, long_add_wrap_l, long_mul_wrap_l, long_add_wrap_l.
  reflexivity.
Qed.

(** ** Digits *)

Lemma isdigit_code (c : ascii) : isdigit c = true -> 0 <= code c - 48 <= 9.
Proof. unfold isdigit. lia. Qed.

Lemma all_digits_cons (c : ascii) (s : string) :
  all_digits (String c s) = isdigit c && all_digits s.
Proof. reflexivity. Qed.

Lemma digits_acc_lower (s : string) :
  forall a, all_digits s = true -> 0 <= a -> a <= digits_acc s a.
Proof.
  induction s as [|c s IH]; intros a Hd Ha; simpl; [lia|].
  rewrite all_digits_cons in Hd. apply andb_true_iff in Hd as [Hc Hs].
  pose proof (isdigit_code c Hc).
  specialize (IH (a * 10 + (code c - 48)) Hs). lia.
Qed.

Lemma digits_acc_shift (s : string) :
  forall a, digits_acc s a = a * 10 ^ strlen s + digits_acc s 0.
Proof.
  unfold strlen.
  induction s as [|c s IH]; intros a; simpl String.length; simpl digits_acc.
  - simpl. lia.
  - rewrite (IH (a * 10 + _)), (IH (0 * 10 + _)).
    rewrite Nat2Z.inj_succ, Z.pow_succ_r by lia. lia.
Qed.

Lemma push_digit_small (a : Z) (c : ascii) :
  isdigit c = true -> 0 <= a <= 10 ^ 17 ->
  push_digit a c = a * 10 + (code c - 48).
Proof.
  intros Hc Ha. pose proof (isdigit_code c Hc).
  rewrite <- (wrap_long_small a) at 1 by (unfold LONG_MIN, LONG_MAX; lia).
  rewrite push_digit_wrap.
  apply wrap_long_small. unfold LONG_MIN, LONG_MAX. lia.
Qed.

(** ** The loops of the timestamp parser *)

Lemma minutes_loop_stop (t : string) (m : Z) :
  isdigit (deref t) = false -> minutes_loop t m = (m, t).
Proof. destruct t as [|c t]; simpl; [reflexivity|]. now intros ->. Qed.

Lemma minutes_loop_digits (M rest : string) :
  forall a, all_digits M = true -> isdigit (deref rest) = false ->
    minutes_loop (M ++ rest)%string (wrap_long a)
    = (wrap_long (digits_acc M a), rest).
Proof.
  induction M as [|c M IH]; intros a Hd Hrest.
  - now apply minutes_loop_stop.
  - rewrite all_digits_cons in Hd. apply andb_true_iff in Hd as [Hc HM].
    simpl. rewrite Hc, push_digit_wrap. now apply IH.
Qed.

Lemma seconds_loop_stop (t : string) (s : Z) :
  isdigit (deref t) = false -> seconds_loop t s = Some (s, t).
Proof. destruct t as [|c t]; simpl; [reflexivity|]. now intros ->. Qed.

Lemma seconds_loop_digits (SS rest : string) :
  forall a, all_digits SS = true -> isdigit (deref rest) = false ->
    0 <= a -> digits_acc SS a <= 59 ->
    seconds_loop (SS ++ rest)%string a = Some (digits_acc SS a, rest).
Proof.
  induction SS as [|c SS IH]; intros a Hd Hrest Ha Hle.
  - now apply seconds_loop_stop.
  - rewrite all_digits_cons in Hd. apply andb_true_iff in Hd as [Hc HS].
    pose proof (isdigit_code c Hc) as Hcode. simpl in Hle |- *.
    pose proof (digits_acc_lower SS (a * 10 + (code c - 48)) HS) as Hlow.
    rewrite Hc, push_digit_small by (trivial; lia).
    destruct (Z.ltb_spec 59 (a * 10 + (code c - 48))); [lia|].
    apply IH; trivial; lia.
Qed.

(** Once the digits read so far denote 60 or more, the loop has returned
    from its inside. *)
Lemma seconds_loop_over (S rest : string) :
  forall a, all_digits S = true -> 0 <= a <= 59 -> 60 <= digits_acc S a ->
    seconds_loop (S ++ rest)%string a = None.
Proof.
  induction S as [|c S IH]; intros a Hd Ha Hge; simpl in Hge; [lia|].
  rewrite all_digits_cons in Hd. apply andb_true_iff in Hd as [Hc HS].
  pose proof (isdigit_code c Hc) as Hcode. simpl.
  rewrite Hc, push_digit_small by (trivial; lia).
  destruct (Z.ltb_spec 59 (a * 10 + (code c - 48))); [reflexivity|].
  apply IH; trivial; lia.
Qed.

Lemma fraction_loop_stop (t : string) (f fd : Z) :
  isdigit (deref t) = false -> fraction_loop t f fd = (f, fd, t).
Proof. destruct t as [|c t]; simpl; [reflexivity|]. now intros ->. Qed.

Lemma fraction_loop_digits (F rest : string) :
  forall f fd, all_digits F = true -> isdigit (deref rest) = false ->
    0 <= fd -> fd + strlen F <= 3 -> 0 <= f < 10 ^ fd ->
    fraction_loop (F ++ rest)%string f fd
    = (digits_acc F f, fd + strlen F, rest).
Proof.
  unfold strlen.
  induction F as [|c F IH]; intros f fd Hd Hrest Hfd Hlen Hf.
  - rewrite fraction_loop_stop by trivial. simpl. now rewrite Z.add_0_r.
  - rewrite all_digits_cons in Hd. apply andb_true_iff in Hd as [Hc HF].
    pose proof (isdigit_code c Hc) as Hcode.
    simpl String.length in *. rewrite Nat2Z.inj_succ in *.
    assert (10 ^ fd <= 10 ^ 2) by (apply Z.pow_le_mono_r; lia).
    simpl. rewrite Hc. destruct (Z.ltb_spec fd 3); [|lia]. simpl.
    rewrite push_digit_small by (trivial; lia).
    rewrite IH; trivial; try lia.
    + f_equal. f_equal. lia.
    + rewrite Z.pow_add_r by lia. lia.
Qed.

Lemma long_mul_small (a b : Z) :
  LONG_MIN <= a * b <= LONG_MAX -> long_mul a b = a * b.
Proof. apply wrap_long_small. Qed.

Lemma pad_loop_value (f fd : Z) :
  1 <= fd <= 3 -> 0 <= f <= 999 -> pad_loop 3 f fd = f * 10 ^ (3 - fd).
Proof.
  intros Hfd Hf.
  assert (fd = 1 \/ fd = 2 \/ fd = 3) as [-> | [-> | ->]] by lia;
    unfold pad_loop;
    repeat match goal with
    | |- context [?a <? 3] =>
        let v := eval vm_compute in (a <? 3) in change (a <? 3) with v
    | |- context [10 ^ ?e] =>
        let v := eval vm_compute in (10 ^ e) in change (10 ^ e) with v
    end;
    cbv iota;
    rewrite ?(long_mul_small f 10) by (unfold LONG_MIN, LONG_MAX; lia);
    rewrite ?(long_mul_small (f * 10) 10) by (unfold LONG_MIN, LONG_MAX; lia);
    lia.
Qed.

Lemma digits_val_fraction (F : string) :
  all_digits F = true -> strlen F <= 3 -> 0 <= digits_val F <= 999.
Proof.
  unfold strlen, digits_val. intros Hd Hlen.
  destruct F as [|a [|b [|c [|d F]]]]; simpl in *;
    repeat match goal with
    | H : all_digits (String _ _) = true |- _ =>
        rewrite all_digits_cons in H; apply andb_true_iff in H as [?%isdigit_code H]
    end; lia.
Qed.

Lemma append_empty_r (s : string) : (s ++ EmptyString)%string = s.
Proof. induction s as [|c s IH]; simpl; congruence. Qed.

(** ** Timestamp parser: the claims *)

Lemma parse_after_minutes (M t : string) (endptr : option string) (w : world) :
  all_digits M = true ->
  hvsc_parse_simple_timestamp (M ++ String ":" t)%string endptr w
  = match seconds_loop t 0 with
    | None => (-1, endptr, set_errno HVSC_ERR_TIMESTAMP w)
    | Some (s, t) =>
        if Ascii.eqb (deref t) "." then
          let '(f, fd, t) := fraction_loop (next t) 0 0 in
          if fd =? 0 then (-1, endptr, set_errno HVSC_ERR_TIMESTAMP w)
          else (timestamp_total (wrap_long (digits_val M)) s (pad_loop 3 f fd),
                Some t, w)
        else (timestamp_total (wrap_long (digits_val M)) s 0, Some t, w)
    end.
Proof.
  intros HM. unfold hvsc_parse_simple_timestamp.
  change 0 with (wrap_long 0) at 1.
  rewrite minutes_loop_digits by (trivial; reflexivity).
  reflexivity.
Qed.

(** C1, as the code has it: a well-formed timestamp whose value in
    milliseconds fits into a [long] is parsed to
    [(M*60+SS)*1000 + f_ms], a fraction of one or two digits counting as
    if it were padded with zeros to three; the scan position ends behind
    the text and the error state is left alone. *)
Theorem timestamp_value
    (M SS : string) (frac : option string) (endptr : option string) (w : world) :
  all_digits M = true ->
  all_digits SS = true ->
  digits_val SS <= 59 ->
  fraction_ok frac ->
  (digits_val M * 60 + digits_val SS) * 1000 + fraction_ms frac <= LONG_MAX ->
  hvsc_parse_simple_timestamp (timestamp_text M SS frac) endptr w
  = ((digits_val M * 60 + digits_val SS) * 1000 + fraction_ms frac,
     Some EmptyString, w).
Proof.
  intros HM HSS H59 Hfrac Hfit. unfold timestamp_text.
  rewrite parse_after_minutes by trivial.
  pose proof (digits_acc_lower M 0 HM ltac:(lia)) as HMpos.
  pose proof (digits_acc_lower SS 0 HSS ltac:(lia)) as HSpos.
  destruct frac as [F|]; simpl in Hfrac; unfold fraction_ms in *.
  - destruct Hfrac as [HF HlenF].
    pose proof (digits_val_fraction F HF ltac:(lia)) as HFval.
    assert (0 <= digits_val F * 10 ^ (3 - strlen F)) as HFms
      by (apply Z.mul_nonneg_nonneg; [lia | apply Z.pow_nonneg; lia]).
    unfold digits_val in *.
    rewrite seconds_loop_digits by (trivial; try reflexivity; lia).
    cbn [deref next]. rewrite Ascii.eqb_refl.
    rewrite <- (append_empty_r F) at 1.
    rewrite fraction_loop_digits
      by (trivial; try reflexivity; cbn; lia).
    destruct (Z.eqb_spec (0 + strlen F) 0); [lia|].
    rewrite pad_loop_value by lia.
    rewrite timestamp_total_wrap.
    rewrite Z.add_0_l, wrap_long_small
      by (unfold LONG_MIN, LONG_MAX in *; lia).
    reflexivity.
  - unfold digits_val in *.
    rewrite seconds_loop_digits by (trivial; try reflexivity; lia).
    cbn [deref]. change (Ascii.eqb NUL ".") with false. cbv iota.
    rewrite timestamp_total_wrap.
    rewrite wrap_long_small by (unfold LONG_MIN, LONG_MAX in *; lia).
    reflexivity.
Qed.

Lemma timestamp_value_witness :
  hvsc_parse_simple_timestamp "5:30.4" None world0
  = (330400, Some EmptyString, world0).
Proof.
  apply (timestamp_value "5" "30" (Some "4") None world0);
    first [reflexivity | vm_compute; intuition discriminate].
Defined.

(** C1 as stated fails for a run of minute digits whose value in
    milliseconds is beyond [LONG_MAX]: what comes back is a [long]. *)
Lemma timestamp_value_overflow :
  all_digits "153722867280913" = true /\
  all_digits "00" = true /\
  digits_val "00" <= 59 /\
  (hvsc_parse_simple_timestamp
     (timestamp_text "153722867280913" "00" None) None world0).1.1
  <> (digits_val "153722867280913" * 60 + digits_val "00") * 1000
     + fraction_ms None.
Proof. vm_compute. repeat split; congruence. Qed.

(** The three instances the specification spells out. *)
Example timestamp_tenth :
  hvsc_parse_simple_timestamp "1:02.5" None world0
  = (62500, Some EmptyString, world0).
Proof. reflexivity. Qed.

Example timestamp_hundredth :
  hvsc_parse_simple_timestamp "1:02.05" None world0
  = (62050, Some EmptyString, world0).
Proof. reflexivity. Qed.

Example timestamp_thousandth :
  hvsc_parse_simple_timestamp "1:02.005" None world0
  = (62005, Some EmptyString, world0).
Proof. reflexivity. Qed.

(** What the parser returns is a [long] in every case. *)
Lemma timestamp_total_range (m s f : Z) :
  LONG_MIN <= timestamp_total m s f <= LONG_MAX.
Proof. apply wrap_long_range. Qed.

(** C6: when the digits that follow the colon, read up to some digit
    boundary [S], denote 60 or more, the call returns -1 and
    [hvsc_errno] is the malformed-timestamp code, whatever the minutes
    were and whatever follows. *)
Theorem seconds_over_59_rejected
    (M S rest : string) (endptr : option string) (w : world) :
  all_digits M = true ->
  all_digits S = true ->
  60 <= digits_val S ->
  let r := hvsc_parse_simple_timestamp
             (M ++ String ":" (S ++ rest))%string endptr w in
  r.1.1 = -1 /\
  hvsc_errno r.2 = HVSC_ERR_TIMESTAMP /\
  hvsc_strerror (hvsc_errno r.2) = "malformed timestamp".
Proof.
  intros HM HS H60 r. subst r.
  rewrite parse_after_minutes by trivial.
  rewrite seconds_loop_over by (trivial; lia).
  repeat split.
Qed.

Lemma seconds_over_59_rejected_witness :
  let r := hvsc_parse_simple_timestamp "3:75.250" None world0 in
  r.1.1 = -1 /\
  hvsc_errno r.2 = HVSC_ERR_TIMESTAMP /\
  hvsc_strerror (hvsc_errno r.2) = "malformed timestamp".
Proof.
  apply (seconds_over_59_rejected "3" "75" ".250" None world0);
    first [reflexivity | vm_compute; intuition discriminate].
Defined.

(** The two failures behind the colon return before [*endptr = t]. *)
Lemma seconds_failure_keeps_endptr
    (M S rest : string) (endptr : option string) (w : world) :
  all_digits M = true -> all_digits S = true -> 60 <= digits_val S ->
  hvsc_parse_simple_timestamp (M ++ String ":" (S ++ rest))%string endptr w
  = (-1, endptr, set_errno HVSC_ERR_TIMESTAMP w).
Proof.
  intros HM HS H60. rewrite parse_after_minutes by trivial.
  now rewrite seconds_loop_over by (trivial; lia).
Qed.

Lemma dangling_dot_keeps_endptr
    (M SS rest : string) (endptr : option string) (w : world) :
  all_digits M = true -> all_digits SS = true -> digits_val SS <= 59 ->
  isdigit (deref rest) = false ->
  hvsc_parse_simple_timestamp
    (M ++ String ":" (SS ++ String "." rest))%string endptr w
  = (-1, endptr, set_errno HVSC_ERR_TIMESTAMP w).
Proof.
  intros HM HS H59 Hrest. rewrite parse_after_minutes by trivial.
  unfold digits_val in H59.
  rewrite seconds_loop_digits by (trivial; try reflexivity; lia).
  cbn [deref next]. rewrite Ascii.eqb_refl.
  now rewrite fraction_loop_stop by trivial.
Qed.

Lemma missing_colon_sets_endptr
    (M rest : string) (endptr : option string) (w : world) :
  all_digits M = true -> isdigit (deref rest) = false ->
  Ascii.eqb (deref rest) ":" = false ->
  hvsc_parse_simple_timestamp (M ++ rest)%string endptr w
  = (-1, Some rest, set_errno HVSC_ERR_TIMESTAMP w).
Proof.
  intros HM Hrest Hcolon. unfold hvsc_parse_simple_timestamp.
  change 0 with (wrap_long 0) at 1.
  rewrite minutes_loop_digits by trivial. now rewrite Hcolon.
Qed.

(** C3, the code at its failing inputs: all three failures return -1 and
    set the malformed-timestamp code, but only the missing colon stores
    the scan position; for seconds beyond 59 and for a dot without digits
    the caller's [endptr] is what it was before the call. *)
Theorem timestamp_failure_endptr (endptr : option string) (w : world) :
  hvsc_parse_simple_timestamp "12x" endptr w
  = (-1, Some "x", set_errno HVSC_ERR_TIMESTAMP w) /\
  hvsc_parse_simple_timestamp "1:60" endptr w
  = (-1, endptr, set_errno HVSC_ERR_TIMESTAMP w) /\
  hvsc_parse_simple_timestamp "1:02." endptr w
  = (-1, endptr, set_errno HVSC_ERR_TIMESTAMP w).
Proof. repeat split. Qed.

(** C10: an empty run of digits is accepted on either side of the colon;
    for ["5:"] the scan position is two characters into the text, on the
    terminator behind the colon. *)
Theorem timestamp_empty_runs (endptr : option string) (w : world) :
  hvsc_parse_simple_timestamp ":30" endptr w = (30000, Some EmptyString, w) /\
  hvsc_parse_simple_timestamp "5:" endptr w
  = (300000, Some (advance "5:" 2), w) /\
  advance "5:" 2 = EmptyString.
Proof. repeat split. Qed.

(** ** Field-tag recognizer *)

Lemma code_inj (x y : ascii) : code x = code y -> x = y.
Proof.
  unfold code. intros H%N2Z.inj.
  rewrite <- (ascii_N_embedding x), <- (ascii_N_embedding y). now f_equal.
Qed.

(** Against such a literal [strncmp] is 0 exactly when the first [n] bytes
    agree. *)
Lemma strncmp_zero_iff (n : nat) :
  forall a b, plain_prefix n b = true ->
    strncmp a b n = 0 <-> first_bytes n a = first_bytes n b.
Proof.
  unfold first_bytes.
  induction n as [|n IH]; intros a b Hb.
  - simpl. destruct a, b; simpl; tauto.
  - destruct b as [|y b]; [discriminate|].
    simpl in Hb. apply andb_true_iff in Hb as [Hy Hb].
    apply negb_true_iff, Z.eqb_neq in Hy.
    destruct a as [|x a]; cbn [strncmp deref next substring].
    + change (code NUL) with 0.
      destruct (Z.eqb_spec 0 (code y)); [lia|]. split; [lia | discriminate].
    + destruct (Z.eqb_spec (code x) (code y)) as [Hxy|Hxy].
      * apply code_inj in Hxy as ->.
        destruct (Z.eqb_spec (code y) 0); [lia|].
        rewrite (IH a b Hb). split; [now intros -> | now intros [= ->]].
      * split; [lia | intros [= -> _]; lia].
Qed.

Lemma field_identifiers_plain :
  Forall (fun id => plain_prefix 8 id = true /\ first8 id = id)
         field_identifiers.
Proof. repeat constructor. Qed.

(** The loop returns the index of the first row whose eight bytes are
    those of the line, and [HVSC_FIELD_INVALID] when there is none. *)
Lemma field_type_loop_first (s : string) (rows : list string) :
  forall k, Forall (fun id => plain_prefix 8 id = true /\ first8 id = id) rows ->
    (forall i id, rows !! i = Some id -> first8 s = id ->
       (forall j id', (j < i)%nat -> rows !! j = Some id' -> first8 s <> id') ->
       field_type_loop s rows k = k + Z.of_nat i) /\
    ((forall id, id ∈ rows -> first8 s <> id) ->
       field_type_loop s rows k = HVSC_FIELD_INVALID).
Proof.
  induction rows as [|id0 rows IH]; intros k Hrows.
  - split; [intros i id Hi; destruct i; discriminate | reflexivity].
  - apply Forall_cons in Hrows as [[Hplain Hid0] Hrows].
    pose proof (strncmp_zero_iff 8 s id0 Hplain) as Hcmp.
    change (first_bytes 8 s) with (first8 s) in Hcmp.
    change (first_bytes 8 id0) with (first8 id0) in Hcmp. rewrite Hid0 in Hcmp.
    cbn [field_type_loop].
    destruct (Z.eqb_spec (strncmp s id0 8) 0) as [Hz|Hz].
    + apply Hcmp in Hz. split.
      * intros [|i] id Hi Heq Hfirst; [lia|].
        exfalso. apply (Hfirst 0%nat id0); [lia | reflexivity | exact Hz].
      * intros Hnone. exfalso. apply (Hnone id0); [left | exact Hz].
    + assert (first8 s <> id0) as Hne by (intros He; apply Hz, Hcmp, He).
      destruct (IH (k + 1) Hrows) as [IH1 IH2]. split.
      * intros [|i] id Hi Heq Hfirst.
        -- injection Hi as <-. contradiction.
        -- rewrite (IH1 i id Hi Heq); [lia|].
           intros j id' Hj. apply (Hfirst (S j)). lia.
      * intros Hnone. apply IH2. intros id Hin. apply Hnone. now right.
Qed.

Lemma field_identifiers_NoDup : NoDup field_identifiers.
Proof.
  unfold field_identifiers.
  repeat (apply NoDup_cons; split;
          [intros H%list_elem_of_In; simpl in H; intuition discriminate|]).
  apply NoDup_nil_2.
Qed.

Lemma field_identifiers_distinct (i j : nat) (id : string) :
  field_identifiers !! i = Some id -> field_identifiers !! j = Some id -> i = j.
Proof. apply NoDup_lookup, field_identifiers_NoDup. Qed.

(** C4, as the code has it: the TITLE literal is two blanks and [TITLE:],
    so it is the line with two leading blanks that is classified as
    TITLE; for every line, a row whose eight bytes are the first eight of
    the line gives that row's index, and a line that matches no row gives
    [HVSC_FIELD_INVALID]. *)
Theorem field_type_classification (s : string) :
  hvsc_get_field_type "  TITLE:Some Song" = HVSC_FIELD_TITLE /\
  (forall i id, field_identifiers !! i = Some id -> first8 s = id ->
     hvsc_get_field_type s = Z.of_nat i) /\
  ((forall id, id ∈ field_identifiers -> first8 s <> id) ->
     hvsc_get_field_type s = HVSC_FIELD_INVALID).
Proof.
  destruct (field_type_loop_first s field_identifiers 0
              field_identifiers_plain) as [H1 H2].
  split; [reflexivity|]. split; [|exact H2].
  intros i id Hi Heq. unfold hvsc_get_field_type.
  rewrite (H1 i id Hi Heq); [lia|].
  intros j id' Hlt Hj Heq'. rewrite Heq in Heq'. subst id'.
  pose proof (field_identifiers_distinct i j id Hi Hj). lia.
Qed.

Lemma field_type_classification_witness :
  hvsc_get_field_type "COMMENT:see above" = 3 /\
  hvsc_get_field_type "plain text of a comment" = HVSC_FIELD_INVALID.
Proof.
  split.
  - apply (proj1 (proj2 (field_type_classification "COMMENT:see above"))
             3%nat "COMMENT:"); reflexivity.
  - apply (proj2 (proj2 (field_type_classification "plain text of a comment"))).
    intros id Hin Heq. subst id.
    apply list_elem_of_In in Hin. simpl in Hin. intuition discriminate.
Defined.

(** C4 as stated fails: with three leading blanks the first eight bytes
    are three blanks and [TITLE], which is no row of the table. *)
Lemma three_blank_title_not_title :
  hvsc_get_field_type "   TITLE:Some Song" <> HVSC_FIELD_TITLE.
Proof. vm_compute. discriminate. Qed.

Example three_blank_title_invalid :
  hvsc_get_field_type "   TITLE:Some Song" = HVSC_FIELD_INVALID.
Proof. reflexivity. Qed.

(** ** Path utilities *)

Lemma first_bytes_0 (s : string) : first_bytes 0 s = EmptyString.
Proof. now destruct s. Qed.

Lemma first_bytes_append (r rest : string) :
  first_bytes (String.length r) (r ++ rest)%string = r.
Proof.
  unfold first_bytes. induction r as [|c r IH]; simpl.
  - apply first_bytes_0.
  - now rewrite IH.
Qed.

Lemma advance_append (r rest : string) :
  advance (r ++ rest)%string (String.length r) = rest.
Proof. induction r as [|c r IH]; simpl; trivial. Qed.

Lemma length_append (a b : string) :
  String.length (a ++ b)%string = (String.length a + String.length b)%nat.
Proof. induction a as [|c a IH]; simpl; congruence. Qed.

(** [memcmp] over the length of [r] is 0 exactly when [r] is what [p]
    begins with. *)
Lemma memcmp_prefix_iff (r : string) :
  forall p, (String.length r <= String.length p)%nat ->
    memcmp (bytes_of p) (bytes_of r) (String.length r) = 0
    <-> first_bytes (String.length r) p = r.
Proof.
  unfold first_bytes.
  induction r as [|y r IH]; intros p Hlen.
  - simpl. now destruct p.
  - destruct p as [|x p]; simpl in Hlen; [lia|].
    cbn [String.length bytes_of memcmp substring].
    destruct (Z.eqb_spec (code x) (code y)) as [Hxy|Hxy].
    + apply code_inj in Hxy as ->. rewrite (IH p) by lia.
      split; [now intros -> | now intros [= ->]].
    + split; [lia | intros [= -> _]; lia].
Qed.

(** C8: [hvsc_path_is_hvsc] answers true exactly when a root is set, the
    path is strictly longer than the root and its first [strlen(root)]
    bytes are the root; for the root itself the answer is false. *)
Theorem path_is_hvsc_iff (p : string) (w : world) :
  (hvsc_path_is_hvsc p w = true <->
   exists r, hvsc_root_path w = Some r /\ strlen r < strlen p /\
             first_bytes (String.length r) p = r) /\
  (hvsc_root_path w = Some p -> hvsc_path_is_hvsc p w = false).
Proof.
  unfold hvsc_path_is_hvsc, strlen. split.
  - destruct (hvsc_root_path w) as [r|].
    + destruct (Z.leb_spec (Z.of_nat (String.length p))
                           (Z.of_nat (String.length r))) as [Hle|Hlt].
      * split; [discriminate | intros (r' & [= <-] & Hlt & _); lia].
      * rewrite Nat2Z.id, Z.eqb_eq, memcmp_prefix_iff by lia. split.
        -- intros Hpre. now exists r.
        -- now intros (r' & [= <-] & _ & Hpre).
    + split; [discriminate | now intros (r' & [=] & _)].
  - intros ->. now rewrite Z.leb_refl.
Qed.

Lemma path_is_hvsc_iff_witness :
  hvsc_path_is_hvsc "/hvsc" hvsc_world = false.
Proof. apply (proj2 (path_is_hvsc_iff "/hvsc" hvsc_world)). reflexivity. Defined.

Example path_under_root :
  hvsc_path_is_hvsc "/hvsc/MUSICIANS/H/Hubbard_Rob/Commando.sid" hvsc_world
  = true /\
  hvsc_path_is_hvsc "/hvsc" hvsc_world = false /\
  hvsc_path_is_hvsc "/home/Commando.sid" hvsc_world = false /\
  hvsc_path_is_hvsc "/hvsc" world0 = false.
Proof. repeat split. Qed.

Lemma set_paths_root (W : bool) (sldb stil bugs root : string) (w : world) :
  hvsc_root_path (hvsc_set_paths W sldb stil bugs root w) = Some root.
Proof. reflexivity. Qed.

(** What stripping leaves of a joined path. *)
Lemma strip_joined_value (W : bool) (root x : string) (w : world) :
  hvsc_root_path w = Some root ->
  exists w',
    strip_joined W root x w
    = Some ((root ++ String (dir_separator W) x)%string,
            String (dir_separator W) x, w')
    /\ hvsc_root_path w' = Some root.
Proof.
  intros Hroot. unfold strip_joined, hvsc_paths_join. cbn [mbind option_bind].
  unfold hvsc_path_strip_root, root_bytes, strlen. cbn [hvsc_root_path set_heap_live].
  rewrite Hroot, length_append. cbn [String.length].
  destruct (Z.eqb_spec (Z.of_nat (String.length root)) 0) as [H0|H0].
  - destruct root; [|discriminate]. eexists. split; [reflexivity | exact Hroot].
  - destruct (Z.leb_spec
                (Z.of_nat (String.length root + S (String.length x)))
                (Z.of_nat (String.length root))); [lia|].
    rewrite Nat2Z.id.
    assert (String.length root
            <= String.length (root ++ String (dir_separator W) x))%nat as Hlen
      by (rewrite length_append; lia).
    rewrite (proj2 (memcmp_prefix_iff root _ Hlen))
      by apply first_bytes_append.
    rewrite advance_append. cbn [Z.eqb].
    eexists. split; [reflexivity | exact Hroot].
Qed.

(** C2, as the code has it: what [hvsc_path_strip_root] leaves of a joined
    path still begins with the separator, so it is the plain concatenation
    of the root and the stripped path that gives the joined path back. *)
Theorem strip_join_concat
    (W : bool) (sldb stil bugs root x : string) (w0 : world) :
  let w := hvsc_set_paths W sldb stil bugs root w0 in
  exists j s w',
    strip_joined W root x w = Some (j, s, w') /\
    (hvsc_paths_join W (Some root) (Some x) w).1 = Some j /\
    s = String (dir_separator W) x /\
    (root ++ s)%string = j.
Proof.
  intros w.
  destruct (strip_joined_value W root x w (set_paths_root _ _ _ _ _ _))
    as (w' & Heq & _).
  exists (root ++ String (dir_separator W) x)%string,
         (String (dir_separator W) x), w'.
  split; [exact Heq | repeat split].
Qed.

(** C2 as stated fails: joining the stripped path to the root again puts a
    second separator in. *)
Lemma join_strip_join_differs :
  hvsc_root_path hvsc_world = Some "/hvsc" /\
  String.prefix "/hvsc" "a.sid" = false /\
  join_strip_join false "/hvsc" "a.sid" hvsc_world
  = Some ("/hvsc//a.sid", "/hvsc/a.sid") /\
  "/hvsc//a.sid" <> "/hvsc/a.sid".
Proof. repeat split. discriminate. Qed.

(** ** Buffered text reader *)

Lemma wrap_size_small (z : Z) : 0 <= z <= SIZE_MAX -> wrap_size z = z.
Proof. unfold wrap_size, SIZE_MAX. intros. apply Z.mod_small. lia. Qed.

Lemma realloc_length (b : block) (n : Z) (w : world) :
  Z.of_nat (length b) <= n ->
  Z.of_nat (length (hvsc_realloc (Some b) n w).1) = n.
Proof.
  intros Hn. cbn [hvsc_realloc fst].
  rewrite length_app, length_take, length_replicate. lia.
Qed.

Lemma realloc_lookup (b : block) (n : Z) (w : world) (j : nat) :
  Z.of_nat (length b) <= n -> (j < length b)%nat ->
  (hvsc_realloc (Some b) n w).1 !! j = b !! j.
Proof.
  intros Hn Hj. cbn [hvsc_realloc fst].
  rewrite take_ge by lia. now apply lookup_app_l.
Qed.

Lemma written_insert (b : block) (n k : nat) (c : ascii) :
  written b n -> written (<[k := Some c]> b) n.
Proof.
  intros Hw j Hj. destruct (Hw j Hj) as [x Hx].
  destruct (decide (k = j)) as [->|Hne].
  - exists c. apply list_lookup_insert_eq. now apply lookup_lt_Some in Hx.
  - exists x. now rewrite list_lookup_insert_ne.
Qed.

Lemma written_extend (b : block) (n : nat) (c : ascii) :
  written b n -> (n < length b)%nat -> written (<[n := Some c]> b) (S n).
Proof.
  intros Hw Hn j Hj. destruct (decide (j = n)) as [->|Hne].
  - exists c. now apply list_lookup_insert_eq.
  - destruct (Hw j ltac:(lia)) as [x Hx]. exists x.
    now rewrite list_lookup_insert_ne by congruence.
Qed.

Lemma written_le (b : block) (n m : nat) :
  written b n -> (m <= n)%nat -> written b m.
Proof. intros Hw Hm j Hj. apply Hw. lia. Qed.

Lemma written_realloc (b : block) (k : nat) (n : Z) (w : world) :
  written b k -> (k <= length b)%nat -> Z.of_nat (length b) <= n ->
  written (hvsc_realloc (Some b) n w).1 k.
Proof.
  intros Hw Hk Hn j Hj. destruct (Hw j Hj) as [x Hx]. exists x.
  now rewrite realloc_lookup by lia.
Qed.

(** A block whose cells are written up to a NUL holds a C string. *)
Lemma cstring_at_written (n : nat) :
  forall b, written b n -> b !! n = Some (Some NUL) -> is_Some (cstring_at b).
Proof.
  induction n as [|n IH]; intros b Hw Hn.
  - destruct b as [|[c|] b]; try discriminate.
    injection Hn as ->. now eexists.
  - destruct (Hw 0%nat ltac:(lia)) as [c Hc].
    destruct b as [|[c'|] b]; try discriminate. injection Hc as ->.
    cbn [cstring_at]. destruct (code c =? 0); [now eexists|].
    destruct (IH b) as [s Hs].
    + intros j Hj. apply (Hw (S j)). lia.
    + exact Hn.
    + rewrite Hs. now eexists.
Qed.

Lemma store_some (b : block) (i : Z) (c : ascii) :
  0 <= i < Z.of_nat (length b) ->
  store b i c = Some (<[Z.to_nat i := Some c]> b).
Proof.
  intros Hi. unfold store.
  destruct (Z.leb_spec 0 i); [|lia].
  destruct (Z.ltb_spec i (Z.of_nat (length b))); [reflexivity | lia].
Qed.

(** The test at the top of the loop leaves room for one more byte and the
    terminator, in two buffers of one size. *)
Lemma resize_step
    (f : FILE) (pa : option string) (ln ll : Z) (b pb : block) (bl i : Z)
    (w : world) :
  Z.of_nat (length b) = bl -> Z.of_nat (length pb) = bl ->
  1 <= bl <= SIZE_MAX -> 0 <= i < bl -> i + 1 < 2 ^ 63 ->
  written b (Z.to_nat i) ->
  exists b' pb' bl',
    (if i =? wrap_size (bl - 1)
     then grow_buffers (Handle (Some f) pa ln ll (Some b) (Some pb) bl) w
     else (Handle (Some f) pa ln ll (Some b) (Some pb) bl, w))
    = (Handle (Some f) pa ln ll (Some b') (Some pb') bl', w)
    /\ Z.of_nat (length b') = bl' /\ Z.of_nat (length pb') = bl'
    /\ bl <= bl' <= SIZE_MAX /\ i + 1 < bl'
    /\ (bl' = bl \/ bl' = 2 * bl)
    /\ written b' (Z.to_nat i).
Proof.
  intros Hb Hpb Hbl Hi Hbound Hw.
  rewrite wrap_size_small by lia.
  destruct (Z.eqb_spec i (bl - 1)) as [->|Hne].
  - assert (wrap_size (bl * 2) = 2 * bl) as Hn
      by (rewrite wrap_size_small; unfold SIZE_MAX; lia).
    unfold grow_buffers.
    cbn [buflen buffer prevbuf fp path lineno linelen hvsc_realloc].
    rewrite Hn.
    eexists _, _, _. split; [reflexivity|].
    pose proof (realloc_length b (2 * bl) w ltac:(lia)) as Hb'.
    pose proof (realloc_length pb (2 * bl) w ltac:(lia)) as Hpb'.
    cbn [hvsc_realloc fst] in Hb', Hpb'.
    unfold SIZE_MAX in *.
    repeat split; try lia; try assumption.
    apply (written_realloc b _ (2 * bl) w); trivial; lia.
  - exists b, pb, bl. repeat split; try lia; try assumption.
Qed.

Ltac handle_facts :=
  unfold capacity_inv, readable, with_buffer, with_stream;
  cbn [buffer prevbuf buflen fp path lineno linelen];
  rewrite ?length_insert;
  repeat split; try lia; try (eexists; reflexivity).

Lemma terminated_string (b : block) (i : Z) :
  0 <= i < Z.of_nat (length b) -> written b (Z.to_nat i) ->
  is_Some (cstring_at (<[Z.to_nat i := Some NUL]> b)).
Proof.
  intros Hi Hw. apply (cstring_at_written (Z.to_nat i)).
  - now apply written_insert.
  - apply list_lookup_insert_eq. lia.
Qed.

(** Every call of the loop on a handle with two buffers of [buflen] cells
    returns, and leaves two buffers of one, no smaller, size. *)
Lemma text_file_read_loop_total (fuel : nat) :
  forall f pa ln ll b pb bl i w,
    Z.of_nat (length b) = bl -> Z.of_nat (length pb) = bl ->
    1 <= bl <= SIZE_MAX -> 0 <= i < bl -> written b (Z.to_nat i) ->
    (length (pending f) < fuel)%nat ->
    i + Z.of_nat (length (pending f)) + 1 < 2 ^ 63 ->
    exists r h' w',
      text_file_read_loop fuel
        (Handle (Some f) pa ln ll (Some b) (Some pb) bl) i w
      = Some (r, h', w')
      /\ capacity_inv h' /\ readable h' /\ bl <= buflen h'.
Proof.
  induction fuel as [|fuel IH];
    intros f pa ln ll b pb bl i w Hb Hpb Hbl Hi Hw Hfuel Hbound; [lia|].
  cbn [text_file_read_loop buflen].
  destruct (resize_step f pa ln ll b pb bl i w Hb Hpb Hbl Hi ltac:(lia) Hw)
    as (b' & pb' & bl' & -> & Hb' & Hpb' & Hbl' & Hi' & _ & Hw').
  destruct f as [pend fa eo er]. cbn [pending] in *.
  destruct (terminated_string b' i ltac:(lia) Hw') as [s0 Hs0].
  destruct pend as [|c rest].
  - assert (forall f',
      exists r h' w',
        (store b' i NUL ≫= λ b0 : block,
           if i =? 0
           then Some (None,
                      with_buffer b0
                        (with_stream f'
                           (Handle (Some (Stream [] fa eo er)) pa ln ll
                                   (Some b') (Some pb') bl')), w)
           else cstring_at b0 ≫= λ s : string,
                Some (Some s,
                      with_buffer b0
                        (with_stream f'
                           (Handle (Some (Stream [] fa eo er)) pa ln ll
                                   (Some b') (Some pb') bl')), w))
        = Some (r, h', w')
        /\ capacity_inv h' /\ readable h' /\ bl <= buflen h') as Heof.
    { intros f'. rewrite store_some by lia. cbn [mbind option_bind].
      destruct (i =? 0).
      - eexists _, _, _. split; [reflexivity|]. handle_facts.
      - rewrite Hs0. cbn [mbind option_bind].
        eexists _, _, _. split; [reflexivity|]. handle_facts. }
    cbn -[store cstring_at]. destruct fa; cbn [feof eof_ind].
    + destruct eo; [apply Heof|].
      eexists _, _, _. split; [reflexivity|]. handle_facts.
    + apply Heof.
  - cbn -[store cstring_at text_file_read_loop].
    destruct (Ascii.eqb c LF).
    + rewrite store_some by lia. cbn [mbind option_bind].
      destruct ((0 <? i) && cell_is (<[Z.to_nat i:=Some NUL]> b') (i - 1) CR)
        eqn:Hcr.
      * apply andb_true_iff in Hcr as [Hpos%Z.ltb_lt _].
        rewrite store_some by (rewrite length_insert; lia).
        cbn [mbind option_bind].
        destruct (cstring_at_written (Z.to_nat (i - 1))
                    (<[Z.to_nat (i - 1):=Some NUL]>
                       (<[Z.to_nat i:=Some NUL]> b'))) as [s Hs].
        -- apply written_insert, written_insert.
           apply (written_le _ _ _ Hw'). lia.
        -- apply list_lookup_insert_eq. rewrite length_insert. lia.
        -- rewrite Hs. cbn [mbind option_bind].
           eexists _, _, _. split; [reflexivity|]. handle_facts.
      * cbn [mbind option_bind]. rewrite Hs0. cbn [mbind option_bind].
        eexists _, _, _. split; [reflexivity|]. handle_facts.
    + rewrite store_some by lia. cbn [mbind option_bind].
      unfold with_buffer, with_stream.
      cbn [buffer prevbuf buflen fp path lineno linelen].
      cbn [length] in Hfuel, Hbound.
      destruct (IH (Stream rest fa eo er) pa ln ll
                  (<[Z.to_nat i:=Some c]> b') pb' bl' (i + 1) w)
        as (r & h' & w' & Heq & Hinv & Hread & Hle);
        rewrite ?length_insert; cbn [pending]; try lia.
      * replace (Z.to_nat (i + 1)) with (S (Z.to_nat i)) by lia.
        apply written_extend; trivial; lia.
      * exists r, h', w'. rewrite Heq.
        split; [reflexivity|]. split; [exact Hinv|]. split; [exact Hread | lia].
Qed.

Lemma memcpy_some (dst src : block) (n : Z) :
  Z.of_nat (length dst) = n -> Z.of_nat (length src) = n ->
  exists d, memcpy dst src n = Some d /\ Z.of_nat (length d) = n.
Proof.
  intros Hd Hs. unfold memcpy.
  destruct (Z.leb_spec 0 n); [|lia].
  destruct (Z.leb_spec n (Z.of_nat (length dst))); [|lia].
  destruct (Z.leb_spec n (Z.of_nat (length src))); [|lia].
  eexists. split; [reflexivity|].
  rewrite length_app, length_take, length_drop. lia.
Qed.

Lemma text_file_open_capacity
    (fs : filesystem) (p : string) (h : hvsc_text_file_t) (w : world) :
  let r := hvsc_text_file_open fs p h w in
  capacity_inv r.1.2 /\
  (r.1.1 = true -> buflen r.1.2 = READFILE_LINE_SIZE /\ readable r.1.2).
Proof.
  unfold hvsc_text_file_open, hvsc_text_file_init_handle.
  destruct (fopen fs p) as [f|]; cbn [fst snd hvsc_strdup hvsc_malloc].
  - unfold capacity_inv, readable.
    cbn [buffer prevbuf buflen fp].
    rewrite !length_insert, !length_replicate.
    unfold READFILE_LINE_SIZE, SIZE_MAX.
    repeat split; try lia; eexists; reflexivity.
  - split; [exact I | discriminate].
Qed.

Lemma text_file_read_capacity (h : hvsc_text_file_t) (w : world) :
  capacity_inv h -> readable h -> unread h + 1 < 2 ^ 63 ->
  exists s h' w',
    hvsc_text_file_read h w = Some (s, h', w') /\
    capacity_inv h' /\ readable h' /\ buflen h <= buflen h'.
Proof.
  destruct h as [f pa ln ll b pb bl].
  unfold capacity_inv, readable, unread.
  cbn [buffer prevbuf buflen fp].
  intros Hinv ([f' ->] & [b' ->] & [pb' ->]) Hbound.
  destruct Hinv as (Hb & Hpb & Hbl).
  unfold hvsc_text_file_read.
  cbn [buffer prevbuf buflen fp path lineno linelen mbind option_bind].
  destruct (memcpy_some pb' b' bl Hpb Hb) as (d & -> & Hd).
  cbn [mbind option_bind].
  apply text_file_read_loop_total; trivial; try lia.
  intros j Hj. cbn in Hj. lia.
Qed.

Lemma text_file_close_capacity (h : hvsc_text_file_t) (w : world) :
  let r := hvsc_text_file_close h w in
  buffer r.1 = None /\ prevbuf r.1 = None /\ capacity_inv r.1.
Proof. repeat split. Qed.

(** Doubling gives both buffers the doubled size. *)
Lemma grow_buffers_capacity (h : hvsc_text_file_t) (w : world) :
  capacity_inv h -> readable h -> buflen h * 2 <= SIZE_MAX ->
  capacity_inv (grow_buffers h w).1 /\
  buflen (grow_buffers h w).1 = 2 * buflen h /\
  (grow_buffers h w).2 = w.
Proof.
  destruct h as [f pa ln ll b pb bl].
  unfold capacity_inv, readable. cbn [buffer prevbuf buflen fp].
  intros Hinv (_ & [b' ->] & [pb' ->]) Hbound.
  destruct Hinv as (Hb & Hpb & Hbl).
  unfold grow_buffers. cbn [buffer prevbuf buflen fp hvsc_realloc fst snd].
  rewrite wrap_size_small by lia.
  pose proof (realloc_length b' (bl * 2) w ltac:(lia)) as Hb'.
  pose proof (realloc_length pb' (bl * 2) w ltac:(lia)) as Hpb'.
  cbn [hvsc_realloc fst] in Hb', Hpb'.
  repeat split; try lia; assumption.
Qed.

(** C9: the two line buffers of a handle have one capacity. Opening
    leaves both absent or both at [READFILE_LINE_SIZE]; a read on a
    handle with two buffers of [buflen] cells returns and leaves two
    buffers of the new [buflen], which is no smaller than the old one;
    closing releases both. The stream is taken to hold fewer than 2^63 - 1
    bytes, the size no buffer can reach. *)
Theorem line_buffers_same_capacity
    (fs : filesystem) (p : string) (h : hvsc_text_file_t) (w : world) :
  (let r := hvsc_text_file_open fs p h w in
   capacity_inv r.1.2 /\
   (r.1.1 = true -> buflen r.1.2 = READFILE_LINE_SIZE /\ readable r.1.2)) /\
  (capacity_inv h -> readable h -> unread h + 1 < 2 ^ 63 ->
   exists s h' w',
     hvsc_text_file_read h w = Some (s, h', w') /\
     capacity_inv h' /\ readable h' /\ buflen h <= buflen h') /\
  (let r := hvsc_text_file_close h w in
   buffer r.1 = None /\ prevbuf r.1 = None /\ capacity_inv r.1).
Proof.
  split; [apply text_file_open_capacity|].
  split; [apply text_file_read_capacity | apply text_file_close_capacity].
Qed.

Lemma line_buffers_same_capacity_witness :
  let h := (hvsc_text_file_open example_fs "last.txt"
              (Handle None None 0 0 None None 0) world0).1.2 in
  exists s h' w',
    hvsc_text_file_read h world0 = Some (s, h', w') /\
    capacity_inv h' /\ readable h' /\ buflen h <= buflen h'.
Proof.
  intros h.
  apply (proj1 (proj2 (line_buffers_same_capacity example_fs "last.txt"
                         h world0))).
  - vm_compute. intuition discriminate.
  - vm_compute. repeat split; eexists; reflexivity.
  - vm_compute. reflexivity.
Defined.

Lemma text_file_read_readable
    (h h' : hvsc_text_file_t) (w w' : world) (s : option string) :
  hvsc_text_file_read h w = Some (s, h', w') -> readable h.
Proof.
  unfold hvsc_text_file_read, readable.
  destruct (buffer h) as [b|]; [|discriminate].
  destruct (prevbuf h) as [pb|]; [|discriminate].
  cbn [mbind option_bind].
  destruct (memcpy pb b (buflen h)); [|discriminate].
  cbn [mbind option_bind].
  destruct (fp h); [|discriminate].
  intros _. repeat split; eexists; reflexivity.
Qed.

(** The invariant holds for every handle the three calls can produce. *)
Lemma reachable_capacity (h : hvsc_text_file_t) :
  reachable h -> capacity_inv h.
Proof.
  induction 1 as [h | fs p h w | h h' w w' s Hh IH Hbound Hread | h w Hh IH].
  - exact I.
  - apply text_file_open_capacity.
  - pose proof (text_file_read_readable _ _ _ _ _ Hread) as Hr.
    destruct (text_file_read_capacity h w IH Hr Hbound)
      as (s1 & h1 & w1 & Heq & Hinv & _).
    rewrite Hread in Heq. now injection Heq as -> -> ->.
  - exact I.
Qed.

(** C5: the two files of the specification, read through a handle that
    was just opened. For the CR-LF file the reads give "line1" with line
    number 1, "line2" with line number 2, then [NULL]; for the file without
    a final newline they give "lastline" with the line number still 0,
    then [NULL]; in both cases [hvsc_errno] is what it was. *)
Theorem text_reader_examples
    (fs : filesystem) (p : string) (h : hvsc_text_file_t) (w : world) :
  let r := hvsc_text_file_open fs p h w in
  (fopen fs p = Some (Stream two_lines_crlf false false false) ->
   r.1.1 = true /\
   seen (read_lines 3 r.1.2 r.2)
   = Some ([(Some "line1", 1); (Some "line2", 2); (None, 2)], hvsc_errno w)) /\
  (fopen fs p = Some (Stream lastline_bytes false false false) ->
   r.1.1 = true /\
   seen (read_lines 2 r.1.2 r.2)
   = Some ([(Some "lastline", 0); (None, 0)], hvsc_errno w)).
Proof.
  unfold hvsc_text_file_open.
  split; intros ->; (split; [reflexivity|]); destruct w; vm_compute; reflexivity.
Qed.

Lemma text_reader_examples_witness :
  let r := hvsc_text_file_open example_fs "crlf.txt"
             (Handle None None 0 0 None None 0) world0 in
  r.1.1 = true /\
  seen (read_lines 3 r.1.2 r.2)
  = Some ([(Some "line1", 1); (Some "line2", 2); (None, 2)], 0).
Proof.
  apply (proj1 (text_reader_examples example_fs "crlf.txt"
                  (Handle None None 0 0 None None 0) world0)).
  reflexivity.
Defined.

(** ** Bulk file loader *)

Lemma store_bytes_some (data : block) (off : Z) (bs : list ascii) :
  0 <= off -> off + Z.of_nat (length bs) <= Z.of_nat (length data) ->
  store_bytes data off bs
  = Some (take (Z.to_nat off) data ++ map Some bs
          ++ drop (Z.to_nat off + length bs)%nat data).
Proof.
  intros H0 Hfit. unfold store_bytes.
  destruct (Z.leb_spec 0 off); [|lia].
  destruct (Z.leb_spec (off + Z.of_nat (length bs)) (Z.of_nat (length data)));
    [reflexivity | lia].
Qed.

(** Writing [bs] behind the bytes [done] that a block already holds. *)
Lemma stored_prefix (data : block) (done bs : list ascii) :
  take (length done) data = map Some done ->
  (length done + length bs <= length data)%nat ->
  let d := take (length done) data ++ map Some bs
           ++ drop (length done + length bs)%nat data in
  take (length done + length bs)%nat d = map Some (done ++ bs)
  /\ length d = length data.
Proof.
  intros Hdone Hfit d. subst d. split.
  - rewrite Hdone, app_assoc, <- map_app.
    apply take_app_length'. rewrite length_map, length_app. lia.
  - rewrite !length_app, length_take, length_map, length_drop. lia.
Qed.

Lemma fread_full (n : Z) (bytes : list ascii) (fa eo er : bool) :
  0 <= n <= Z.of_nat (length bytes) ->
  fread n (Stream bytes fa eo er)
  = (take (Z.to_nat n) bytes, Stream (drop (Z.to_nat n) bytes) fa eo er).
Proof.
  intros Hn. unfold fread. cbn [pending faulty eof_ind err_ind].
  rewrite length_take.
  destruct (Z.ltb_spec (Z.of_nat (Z.to_nat n `min` length bytes)) n);
    [lia | reflexivity].
Qed.

Lemma fread_short (n : Z) (bytes : list ascii) (fa eo er : bool) :
  Z.of_nat (length bytes) < n ->
  fread n (Stream bytes fa eo er)
  = (bytes, if fa then Stream [] true eo true else Stream [] false true er).
Proof.
  intros Hn. unfold fread. cbn [pending faulty eof_ind err_ind].
  rewrite take_ge, drop_ge by lia.
  destruct (Z.ltb_spec (Z.of_nat (length bytes)) n); [now destruct fa | lia].
Qed.

Lemma read_file_loop_result (fuel : nat) :
  forall (done rest : list ascii) (data : block) (w : world)
         (bad er : bool) (a k : Z),
    (length rest < fuel)%nat ->
    take (length done) data = map Some done ->
    Z.of_nat (length done) = READFILE_BLOCK_SIZE * a ->
    Z.of_nat (length data) = READFILE_BLOCK_SIZE * 2 ^ k ->
    0 <= k -> a <= 2 ^ k ->
    Z.of_nat (length done + length rest) < 2 ^ 63 ->
    loader_result done rest bad w
      (read_file_loop fuel (Stream rest bad false er) data
         (Z.of_nat (length done)) (Z.of_nat (length data)) w).
Proof.
  assert (READFILE_BLOCK_SIZE = 65536) as HB by reflexivity.
  induction fuel as [|fuel IH];
    intros done rest data w bad er a k Hfuel Hdone Ha Hk Hk0 Hak Hbound;
    [lia|].
  cbn [read_file_loop].
  assert (0 < 2 ^ k) as Hpow by (apply Z.pow_pos_nonneg; lia).
  (* the test at the top of the loop *)
  assert (exists data' k',
            (if Z.of_nat (length done) =? Z.of_nat (length data)
             then (wrap_size (Z.of_nat (length data) * 2),
                   hvsc_realloc (Some data)
                     (wrap_size (Z.of_nat (length data) * 2)) w)
             else (Z.of_nat (length data), (data, w)))
            = (Z.of_nat (length data'), (data', w))
            /\ take (length done) data' = map Some done
            /\ Z.of_nat (length data') = READFILE_BLOCK_SIZE * 2 ^ k'
            /\ 0 <= k' /\ a + 1 <= 2 ^ k')
    as (data' & k' & -> & Hdone' & Hk' & Hk0' & Hak').
  { destruct (Z.eqb_spec (Z.of_nat (length done)) (Z.of_nat (length data)))
      as [Heq|Hne].
    - rewrite wrap_size_small by (unfold SIZE_MAX; lia).
      pose proof (realloc_length data (Z.of_nat (length data) * 2) w
                    ltac:(lia)) as Hlen.
      cbn [hvsc_realloc fst] in Hlen |- *.
      eexists _, (k + 1). rewrite Hlen. split; [reflexivity|].
      rewrite Z.pow_add_r, Z.pow_1_r by lia.
      repeat split; try lia.
      rewrite (take_ge data) by lia. rewrite take_app_le by lia. exact Hdone.
    - exists data, k. repeat split; trivial; lia. }
  assert (0 < 2 ^ k') as Hpow' by (apply Z.pow_pos_nonneg; lia).
  destruct (Z.lt_ge_cases (Z.of_nat (length rest)) READFILE_BLOCK_SIZE)
    as [Hshort|Hfull].
  - (* a short read: the loop ends *)
    rewrite fread_short by trivial.
    rewrite store_bytes_some by nia. cbn [mbind option_bind].
    destruct (Z.ltb_spec (Z.of_nat (length rest)) READFILE_BLOCK_SIZE); [|lia].
    rewrite Nat2Z.id.
    destruct (stored_prefix data' done rest Hdone' ltac:(nia)) as [Hpre Hlen].
    unfold loader_result. destruct bad; cbn [feof eof_ind]; [reflexivity|].
    eexists _, k'. split; [|split; [exact Hpre | split; [|exact Hk0']]].
    + rewrite wrap_size_small by (unfold SIZE_MAX; lia).
      rewrite wrap_long_small by (unfold LONG_MIN, LONG_MAX; lia).
      now rewrite Nat2Z.inj_add.
    + rewrite Hlen. exact Hk'.
  - (* a full chunk: once more *)
    rewrite fread_full by lia.
    remember (Z.to_nat READFILE_BLOCK_SIZE) as B eqn:HBn.
    assert (Z.of_nat B = READFILE_BLOCK_SIZE) as HBz by lia. clear HBn.
    assert (length (take B rest) = B) as HlenB
      by (rewrite length_take; lia).
    rewrite store_bytes_some by (rewrite ?HlenB; nia).
    cbn [mbind option_bind]. rewrite HlenB, Nat2Z.id.
    destruct (Z.ltb_spec (Z.of_nat B) READFILE_BLOCK_SIZE); [lia|].
    destruct (stored_prefix data' done (take B rest) Hdone'
                ltac:(rewrite HlenB; nia)) as [Hpre Hlen].
    rewrite HlenB in Hpre, Hlen.
    rewrite wrap_size_small by (unfold SIZE_MAX; lia).
    remember (take (length done) data' ++ map Some (take B rest)
              ++ drop (length done + B)%nat data') as d eqn:Hd.
    assert (Z.of_nat (length done) + READFILE_BLOCK_SIZE
            = Z.of_nat (length (done ++ take B rest))) as ->
      by (rewrite length_app, HlenB; lia).
    rewrite <- Hlen.
    assert (loader_result (done ++ take B rest) (drop B rest) bad w
              (read_file_loop fuel (Stream (drop B rest) bad false er) d
                 (Z.of_nat (length (done ++ take B rest)))
                 (Z.of_nat (length d)) w)) as Hres.
    { apply (IH _ _ _ _ _ _ (a + 1) k');
        rewrite ?length_app, ?HlenB, ?length_drop; try lia.
      exact Hpre. }
    unfold loader_result in *. destruct bad; [exact Hres|].
    destruct Hres as (data2 & k2 & Heq & Hpre2 & Hk2 & Hk20).
    rewrite <- app_assoc, take_drop in Hpre2.
    assert (length (done ++ take B rest) + length (drop B rest)
            = length done + length rest)%nat as Hsum
      by (rewrite length_app, HlenB, length_drop; lia).
    rewrite Hsum in Heq, Hpre2.
    exists data2, k2. split; [|split; [|split]]; trivial.
Qed.

Lemma read_file_result
    (fs : filesystem) (p : string) (dest : option block) (w : world)
    (bytes : list ascii) (bad : bool) :
  fopen fs p = Some (Stream bytes bad false false) ->
  Z.of_nat (length bytes) < 2 ^ 63 ->
  loader_result [] bytes bad
    (set_heap_live (heap_live w + 1)
       (set_streams_open (streams_open w + 1) w))
    (hvsc_read_file fs dest p w).
Proof.
  intros Hopen Hlen. unfold hvsc_read_file. rewrite Hopen.
  cbn [hvsc_malloc pending].
  change (heap_live (set_streams_open (streams_open w + 1) w))
    with (heap_live w).
  set (w1 := set_heap_live _ _).
  set (data := replicate (Z.to_nat READFILE_BLOCK_SIZE) None).
  assert (Z.of_nat (length data) = READFILE_BLOCK_SIZE) as Hdata
    by (subst data; rewrite length_replicate; unfold READFILE_BLOCK_SIZE; lia).
  rewrite <- Hdata at 1.
  change 0 with (Z.of_nat (length (@nil ascii))).
  apply (read_file_loop_result _ [] bytes data w1 bad false 0 0);
    cbn [length]; try lia; try reflexivity.
Qed.

(** C7: the loader on a file of fewer than 2^63 bytes. When the stream
    ends in a failure the call returns -1 with [hvsc_errno] at the I/O
    code, [*dest] is [NULL], and no block and no stream of the call is
    left behind. Otherwise it returns the number of bytes, [*dest] is a
    block that begins with the bytes of the file and whose size is the
    chunk size doubled some number of times, [hvsc_errno] is untouched,
    and the block is the one thing left allocated. In particular a file of
    exactly one chunk gives 65536 and the empty file gives 0 with a block. *)
Theorem read_file_spec
    (fs : filesystem) (p : string) (dest : option block) (w : world)
    (bytes : list ascii) (bad : bool) :
  fopen fs p = Some (Stream bytes bad false false) ->
  Z.of_nat (length bytes) < 2 ^ 63 ->
  exists r d w',
    hvsc_read_file fs dest p w = Some (r, d, w') /\
    streams_open w' = streams_open w /\
    (if bad then
       r = -1 /\ d = None /\ hvsc_errno w' = HVSC_ERR_IO /\
       heap_live w' = heap_live w
     else
       r = Z.of_nat (length bytes) /\ hvsc_errno w' = hvsc_errno w /\
       heap_live w' = heap_live w + 1 /\
       exists data k,
         d = Some data /\ take (length bytes) data = map Some bytes /\
         Z.of_nat (length data) = READFILE_BLOCK_SIZE * 2 ^ k /\ 0 <= k) /\
    (bad = false -> Z.of_nat (length bytes) = READFILE_BLOCK_SIZE ->
     r = 65536 /\ exists data,
       d = Some data /\ take (length bytes) data = map Some bytes) /\
    (bad = false -> bytes = [] -> r = 0 /\ is_Some d).
Proof.
  intros Hopen Hlen.
  pose proof (read_file_result fs p dest w bytes bad Hopen Hlen) as Hres.
  unfold loader_result in Hres. destruct bad.
  - eexists _, _, _. split; [exact Hres|].
    cbn. repeat split; try lia; discriminate.
  - destruct Hres as (data & k & Heq & Hpre & Hk & Hk0). cbn [length] in *.
    rewrite Nat.add_0_l in *. cbn [app] in Hpre.
    eexists _, _, _. split; [exact Heq|].
    split; [cbn; lia|]. split; [|split].
    + split; [reflexivity|]. split; [reflexivity|]. split; [cbn; lia|].
      now exists data, k.
    + intros _ H64. split; [exact H64 | now exists data].
    + intros _ ->. split; [reflexivity | now eexists].
Qed.

Lemma read_file_spec_witness :
  exists d w',
    hvsc_read_file example_fs None "last.txt" world0 = Some (8, d, w')
    /\ is_Some d.
Proof.
  destruct (read_file_spec example_fs "last.txt" None world0
              lastline_bytes false eq_refl eq_refl)
    as (r & d & w' & Heq & _ & (Hr & _ & _ & data & k & Hd & _) & _).
  exists d, w'. split.
  - rewrite Heq, Hr. reflexivity.
  - rewrite Hd. now eexists.
Defined.

(** When the file cannot be opened nothing is allocated and [*dest] is
    not written. *)
Lemma read_file_no_file
    (fs : filesystem) (p : string) (dest : option block) (w : world) :
  fopen fs p = None ->
  hvsc_read_file fs dest p w = Some (-1, dest, set_errno HVSC_ERR_IO w).
Proof. intros Hopen. unfold hvsc_read_file. now rewrite Hopen. Qed.

(** A file of exactly one chunk, all of one byte. *)
Example read_file_one_chunk (dest : option block) (w : world) :
  let bytes := replicate (Z.to_nat READFILE_BLOCK_SIZE) "a"%char in
  exists data,
    hvsc_read_file [("tune.sid", (bytes, false))] dest "tune.sid" w
    = Some (65536, Some data,
            fclose (set_heap_live (heap_live w + 1)
                      (set_streams_open (streams_open w + 1) w)))
    /\ take (length bytes) data = map Some bytes.
Proof.
  intros bytes.
  assert (Z.of_nat (length bytes) = READFILE_BLOCK_SIZE) as Hlen
    by (subst bytes; rewrite length_replicate; unfold READFILE_BLOCK_SIZE; lia).
  pose proof (read_file_result [("tune.sid", (bytes, false))] "tune.sid"
                dest w bytes false eq_refl
                ltac:(rewrite Hlen; reflexivity)) as Hres.
  destruct Hres as (data & k & Heq & Hpre & _). cbn [length app] in *.
  rewrite Nat.add_0_l in *. exists data. split; [|exact Hpre].
  rewrite Heq. now rewrite Hlen.
Qed.

Example read_file_empty :
  exists data w',
    hvsc_read_file example_fs None "empty.bin" world0 = Some (0, Some data, w')
    /\ hvsc_errno w' = 0 /\ heap_live w' = 1 /\ streams_open w' = 0.
Proof.
  destruct (read_file_result example_fs "empty.bin" None world0 [] false
              eq_refl eq_refl) as (data & k & Heq & _).
  exists data. eexists. split; [exact Heq|]. repeat split.
Qed.

Example read_file_failing_device :
  hvsc_read_file example_fs None "bad.bin" world0
  = Some (-1, None, set_errno HVSC_ERR_IO world0).
Proof.
  rewrite (read_file_result example_fs "bad.bin" None world0 lastline_bytes
             true eq_refl eq_refl).
  reflexivity.
Qed.

(** * Further properties of the code *)

(** ** Blank lines, comment lines, separators *)

Lemma isspace_not_nul (c : ascii) : isspace c = true -> code c <> 0.
Proof. unfold isspace. lia. Qed.

Lemma skip_space_app (ws rest : string) :
  forallb isspace (list_ascii_of_string ws) = true ->
  skip_space (ws ++ rest)%string = skip_space rest.
Proof.
  induction ws as [|c ws IH]; intros Hws; [reflexivity|].
  simpl in Hws. apply andb_true_iff in Hws as [Hc Hws].
  pose proof (isspace_not_nul c Hc) as Hnz. apply Z.eqb_neq in Hnz.
  simpl. rewrite Hnz, Hc. simpl. now apply IH.
Qed.

(** Every string is blanks followed by what [skip_space] stops on, and
    that begins with no blank. *)
Lemma skip_space_split (s : string) :
  exists ws,
    s = (ws ++ skip_space s)%string /\
    forallb isspace (list_ascii_of_string ws) = true /\
    isspace (deref (skip_space s)) = false.
Proof.
  induction s as [|c s (ws & Heq & Hws & Hstop)].
  - now exists EmptyString.
  - simpl. destruct (negb (code c =? 0) && isspace c) eqn:Hc.
    + apply andb_true_iff in Hc as [_ Hc].
      exists (String c ws). simpl. rewrite Hc, Hws. now rewrite <- Heq.
    + exists EmptyString. repeat split. simpl.
      apply andb_false_iff in Hc as [Hc|Hc]; [|exact Hc].
      apply negb_false_iff, Z.eqb_eq in Hc. unfold isspace. rewrite Hc.
      reflexivity.
Qed.

(** X1: a string without NUL bytes is empty for [hvsc_string_is_empty]
    exactly when each of its bytes is white space; in particular the
    string of no bytes is. *)
Theorem string_is_empty_iff (s : string) :
  nul_free s = true ->
  (hvsc_string_is_empty s = true
   <-> forallb isspace (list_ascii_of_string s) = true).
Proof.
  unfold hvsc_string_is_empty.
  induction s as [|c s IH]; intros Hnf; [now split|].
  simpl in Hnf. apply andb_true_iff in Hnf as [Hc Hnf]. simpl. rewrite Hc.
  simpl. destruct (isspace c); simpl.
  - now apply IH.
  - split; [|discriminate]. intros H%Ascii.eqb_eq. subst c. discriminate.
Qed.

Lemma string_is_empty_iff_witness :
  hvsc_string_is_empty "   " = true
  <-> forallb isspace (list_ascii_of_string "   ") = true.
Proof. apply (string_is_empty_iff "   "). reflexivity. Defined.

(** X2: [hvsc_string_is_comment] holds exactly for the strings that are
    white space, then a hash sign, then anything. *)
Theorem string_is_comment_iff (s : string) :
  hvsc_string_is_comment s = true
  <-> exists ws rest,
        s = (ws ++ String "#" rest)%string /\
        forallb isspace (list_ascii_of_string ws) = true.
Proof.
  unfold hvsc_string_is_comment. split.
  - intros H%Ascii.eqb_eq.
    destruct (skip_space_split s) as (ws & Heq & Hws & _).
    destruct (skip_space s) as [|c rest]; [discriminate|].
    simpl in H. subst c. now exists ws, rest.
  - intros (ws & rest & -> & Hws). rewrite skip_space_app by exact Hws.
    reflexivity.
Qed.

Lemma string_is_comment_iff_witness :
  hvsc_string_is_comment "  # STIL entry" = true.
Proof.
  apply (proj2 (string_is_comment_iff "  # STIL entry")).
  now exists "  ", " STIL entry".
Defined.

(** X3: no string is both empty and a comment, and neither of the two is
    ever a field line: a line that [hvsc_get_field_type] recognises has a
    byte that is neither white space nor a hash sign first. *)
Theorem empty_comment_field_exclusive (s : string) :
  (hvsc_string_is_empty s = true -> hvsc_string_is_comment s = false) /\
  (hvsc_string_is_comment s = true -> hvsc_string_is_empty s = false) /\
  (hvsc_get_field_type s <> HVSC_FIELD_INVALID ->
   hvsc_string_is_empty s = false /\ hvsc_string_is_comment s = false).
Proof.
  unfold hvsc_string_is_empty, hvsc_string_is_comment.
  split; [|split].
  - intros H%Ascii.eqb_eq. now rewrite H.
  - intros H%Ascii.eqb_eq. now rewrite H.
  - intros Hfield.
    destruct (field_type_loop_first s field_identifiers 0
                field_identifiers_plain) as [_ Hnone].
    destruct (in_dec string_dec (first8 s) field_identifiers) as [Hin|Hno].
    2: { exfalso. apply Hfield, Hnone. intros id Hin <-.
         now apply Hno, list_elem_of_In. }
    unfold first8 in Hin.
    destruct s as [|c0 [|c1 [|c2 [|c3 [|c4 [|c5 [|c6 [|c7 s]]]]]]]];
      simpl in Hin;
      repeat (destruct Hin as [Hid|Hin]; [try discriminate|]);
      try contradiction;
      injection Hid as <- <- <- <- <- <- <- <-; split; reflexivity.
Qed.

Lemma empty_comment_field_exclusive_witness :
  hvsc_string_is_empty "COMMENT:see above" = false /\
  hvsc_string_is_comment "COMMENT:see above" = false.
Proof.
  apply (proj2 (proj2 (empty_comment_field_exclusive "COMMENT:see above"))).
  vm_compute. discriminate.
Defined.

(** X4: [hvsc_path_fix_separators] keeps the length, leaves no backslash,
    changes nothing but backslashes, and does nothing when it is run a
    second time. *)
Theorem fix_separators_result (p : string) :
  String.length (hvsc_path_fix_separators p) = String.length p /\
  (forall i, String.get i (hvsc_path_fix_separators p) <> Some "\"%char) /\
  (forall i c, String.get i p = Some c -> c <> "\"%char ->
     String.get i (hvsc_path_fix_separators p) = Some c) /\
  (forall i, String.get i p = Some "\"%char ->
     String.get i (hvsc_path_fix_separators p) = Some "/"%char) /\
  hvsc_path_fix_separators (hvsc_path_fix_separators p)
  = hvsc_path_fix_separators p.
Proof.
  induction p as [|c p (Hlen & Hnone & Hkeep & Hback & Hidem)].
  - repeat split; intros; try discriminate; now destruct i.
  - simpl. repeat split.
    + now rewrite Hlen.
    + intros [|i]; simpl; [|apply Hnone].
      destruct (Ascii.eqb_spec c "\"); [discriminate | congruence].
    + intros [|i] x; simpl; [|apply Hkeep].
      intros [= ->] Hx. now destruct (Ascii.eqb_spec x "\").
    + intros [|i]; simpl; [|apply Hback]. now intros [= ->].
    + rewrite Hidem. f_equal.
      destruct (Ascii.eqb_spec c "\"); [reflexivity|].
      now destruct (Ascii.eqb_spec c "\").
Qed.

Lemma fix_separators_result_witness :
  String.get 2 (hvsc_path_fix_separators "C:\HVSC\DOCUMENTS") = Some "/"%char.
Proof.
  apply (proj1 (proj2 (proj2 (proj2
           (fix_separators_result "C:\HVSC\DOCUMENTS"))))).
  reflexivity.
Defined.

Lemma fix_separators_app (a b : string) :
  hvsc_path_fix_separators (a ++ b)%string
  = (hvsc_path_fix_separators a ++ hvsc_path_fix_separators b)%string.
Proof. induction a as [|c a IH]; simpl; [reflexivity | now rewrite IH]. Qed.

(** X5: a path joined on Windows and then passed through
    [hvsc_path_fix_separators] is the path that the other builds join from
    the two fixed parts; so a path under a Windows root, once fixed, is the
    forward-slash path the databases list. *)
Theorem fix_separators_join (a b : string) (w : world) :
  hvsc_path_fix_separators <$> (hvsc_paths_join true (Some a) (Some b) w).1
  = (hvsc_paths_join false (Some (hvsc_path_fix_separators a))
       (Some (hvsc_path_fix_separators b)) w).1.
Proof.
  cbn [hvsc_paths_join fst fmap option_fmap option_map].
  f_equal. rewrite fix_separators_app. reflexivity.
Qed.

(** ** Field types and their display strings *)

(** The row behind a type that is not the invalid one. *)
Lemma field_type_row (s : string) :
  hvsc_get_field_type s = HVSC_FIELD_INVALID \/
  (0 <= hvsc_get_field_type s < 6 /\
   field_identifiers !! Z.to_nat (hvsc_get_field_type s) = Some (first8 s)).
Proof.
  destruct (field_type_loop_first s field_identifiers 0
              field_identifiers_plain) as [Hsome Hnone].
  destruct (in_dec string_dec (first8 s) field_identifiers) as [Hin|Hno].
  - right. apply list_elem_of_In, list_elem_of_lookup in Hin as [i Hi].
    assert (hvsc_get_field_type s = Z.of_nat i) as ->.
    { unfold hvsc_get_field_type. rewrite (Hsome i (first8 s) Hi eq_refl).
      - lia.
      - intros j id' Hlt Hj <-.
        pose proof (field_identifiers_distinct i j _ Hi Hj). lia. }
    rewrite Nat2Z.id. split; [|exact Hi].
    apply lookup_lt_Some in Hi. simpl in Hi. lia.
  - left. apply Hnone. intros id Hin <-. now apply Hno, list_elem_of_In.
Qed.

Lemma field_type_first8 (s s' : string) :
  first8 s = first8 s' -> hvsc_get_field_type s = hvsc_get_field_type s'.
Proof.
  intros Heq.
  destruct (field_type_loop_first s field_identifiers 0
              field_identifiers_plain) as [Hsome Hnone].
  destruct (field_type_row s') as [Hinv|[Hrange Hrow]].
  - rewrite Hinv. apply Hnone. intros id Hin Hid.
    destruct (field_type_loop_first s' field_identifiers 0
                field_identifiers_plain) as [Hsome' _].
    apply list_elem_of_lookup in Hin as [i Hi].
    unfold hvsc_get_field_type in Hinv.
    rewrite (Hsome' i id Hi ltac:(congruence)) in Hinv.
    + unfold HVSC_FIELD_INVALID in Hinv. lia.
    + intros j id' Hlt Hj Hid'.
      assert (id' = id) as -> by congruence.
      pose proof (field_identifiers_distinct i j _ Hi Hj). lia.
  - unfold hvsc_get_field_type at 1.
    rewrite (Hsome _ _ Hrow ltac:(congruence)); [lia|].
    intros j id' Hlt Hj Hid'. rewrite Heq in Hid'. subst id'.
    pose proof (field_identifiers_distinct _ _ _ Hrow Hj). lia.
Qed.

(** X6: what [hvsc_get_field_type] returns is -1 or the index of a row,
    and then that row is the first eight bytes of the line; two lines with
    the same first eight bytes have the same type. *)
Theorem field_type_sound (s : string) :
  (hvsc_get_field_type s = HVSC_FIELD_INVALID \/
   (0 <= hvsc_get_field_type s < 6 /\
    field_identifiers !! Z.to_nat (hvsc_get_field_type s) = Some (first8 s)))
  /\
  (forall s', first8 s = first8 s' ->
     hvsc_get_field_type s = hvsc_get_field_type s').
Proof. split; [apply field_type_row | apply field_type_first8]. Qed.

Lemma field_type_sound_witness :
  hvsc_get_field_type "  TITLE:Commando" = hvsc_get_field_type "  TITLE:".
Proof.
  apply (proj2 (field_type_sound "  TITLE:Commando") "  TITLE:").
  reflexivity.
Defined.

(** X7: the display string of the type of a line is the invalid marker
    exactly when the line has no field tag; for a tagged line it is the
    row of [field_displays] with the index of the tag. *)
Theorem field_display_of_type (s : string) :
  (hvsc_get_field_display (hvsc_get_field_type s) = "<invalid>"
   <-> hvsc_get_field_type s = HVSC_FIELD_INVALID) /\
  (hvsc_get_field_type s <> HVSC_FIELD_INVALID ->
   field_displays !! Z.to_nat (hvsc_get_field_type s)
   = Some (hvsc_get_field_display (hvsc_get_field_type s))).
Proof.
  destruct (field_type_row s) as [->|[Hrange _]].
  - split; [now split | now intros []].
  - assert (exists i, hvsc_get_field_type s = Z.of_nat i /\ (i < 6)%nat)
      as (i & -> & Hi) by (exists (Z.to_nat (hvsc_get_field_type s)); lia).
    rewrite Nat2Z.id.
    do 6 (destruct i as [|i]; [split; [split; discriminate | reflexivity]|]).
    lia.
Qed.

Lemma field_display_of_type_witness :
  field_displays !! Z.to_nat (hvsc_get_field_type "   NAME:Commando")
  = Some (hvsc_get_field_display (hvsc_get_field_type "   NAME:Commando")).
Proof.
  apply (proj2 (field_display_of_type "   NAME:Commando")).
  vm_compute. discriminate.
Defined.

(** ** Timestamps inside a longer text *)

Lemma append_assoc3 (a b c : string) :
  ((a ++ b) ++ c)%string = (a ++ (b ++ c))%string.
Proof. induction a as [|x a IH]; simpl; congruence. Qed.

Lemma fraction_loop_full (t : string) (f : Z) :
  fraction_loop t f 3 = (f, 3, t).
Proof. destruct t as [|c t]; simpl; [reflexivity|]. now rewrite andb_false_r. Qed.

Lemma fraction_loop_prefix (F rest : string) :
  forall f fd, all_digits F = true ->
    fd + strlen F = 3 \/ isdigit (deref rest) = false ->
    0 <= fd -> fd + strlen F <= 3 -> 0 <= f < 10 ^ fd ->
    fraction_loop (F ++ rest)%string f fd
    = (digits_acc F f, fd + strlen F, rest).
Proof.
  unfold strlen.
  induction F as [|c F IH]; intros f fd Hd Hstop Hfd Hlen Hf.
  - simpl String.length in *. rewrite Z.add_0_r in *. simpl.
    destruct Hstop as [->|Hstop];
      [apply fraction_loop_full | now apply fraction_loop_stop].
  - rewrite all_digits_cons in Hd. apply andb_true_iff in Hd as [Hc HF].
    pose proof (isdigit_code c Hc) as Hcode.
    simpl String.length in *. rewrite Nat2Z.inj_succ in *.
    assert (10 ^ fd <= 10 ^ 2) by (apply Z.pow_le_mono_r; lia).
    simpl. rewrite Hc. destruct (Z.ltb_spec fd 3); [|lia]. simpl.
    rewrite push_digit_small by (trivial; lia).
    rewrite IH; trivial; try lia.
    + f_equal. f_equal. lia.
    + destruct Hstop; [left; lia | now right].
    + rewrite Z.pow_add_r by lia. lia.
Qed.

(** X8: a timestamp at the head of a longer text is parsed to its value
    and the scan position is left on the text behind it; of a fraction at
    most three digits are taken, a fourth is already what follows. *)
Theorem timestamp_prefix
    (M SS : string) (frac : option string) (rest : string)
    (endptr : option string) (w : world) :
  all_digits M = true ->
  all_digits SS = true ->
  digits_val SS <= 59 ->
  fraction_ok frac ->
  may_follow frac rest ->
  (digits_val M * 60 + digits_val SS) * 1000 + fraction_ms frac <= LONG_MAX ->
  hvsc_parse_simple_timestamp (timestamp_text M SS frac ++ rest)%string endptr w
  = ((digits_val M * 60 + digits_val SS) * 1000 + fraction_ms frac,
     Some rest, w).
Proof.
  intros HM HSS H59 Hfrac Hrest Hfit. unfold timestamp_text.
  rewrite append_assoc3. cbn [append]. rewrite append_assoc3.
  rewrite parse_after_minutes by trivial.
  pose proof (digits_acc_lower M 0 HM ltac:(lia)) as HMpos.
  pose proof (digits_acc_lower SS 0 HSS ltac:(lia)) as HSpos.
  destruct frac as [F|]; simpl in Hfrac, Hrest; unfold fraction_ms in *.
  - destruct Hfrac as [HF HlenF].
    pose proof (digits_val_fraction F HF ltac:(lia)) as HFval.
    assert (0 <= digits_val F * 10 ^ (3 - strlen F)) as HFms
      by (apply Z.mul_nonneg_nonneg; [lia | apply Z.pow_nonneg; lia]).
    unfold digits_val in *. cbn [append].
    rewrite seconds_loop_digits by (trivial; try reflexivity; lia).
    cbn [deref next]. rewrite Ascii.eqb_refl.
    rewrite fraction_loop_prefix by (trivial; cbn; lia).
    destruct (Z.eqb_spec (0 + strlen F) 0); [lia|].
    rewrite pad_loop_value by lia.
    rewrite timestamp_total_wrap.
    rewrite Z.add_0_l, wrap_long_small
      by (unfold LONG_MIN, LONG_MAX in *; lia).
    reflexivity.
  - destruct Hrest as [Hdig Hdot]. unfold digits_val in *. cbn [append].
    rewrite seconds_loop_digits by (trivial; lia).
    rewrite Hdot. rewrite timestamp_total_wrap.
    rewrite wrap_long_small by (unfold LONG_MIN, LONG_MAX in *; lia).
    reflexivity.
Qed.

Lemma timestamp_prefix_witness :
  hvsc_parse_simple_timestamp "3:57.1234 0:12" None world0
  = (237123, Some "4 0:12", world0).
Proof.
  apply (timestamp_prefix "3" "57" (Some "123") "4 0:12" None world0);
    first [reflexivity | vm_compute; intuition discriminate].
Defined.

(** X9: when the digits at the head of the text are not followed by a
    colon the call returns -1, sets the malformed-timestamp code and
    leaves the scan position on the character that should have been the
    colon. *)
Theorem timestamp_missing_colon
    (M rest : string) (endptr : option string) (w : world) :
  all_digits M = true ->
  isdigit (deref rest) = false ->
  Ascii.eqb (deref rest) ":" = false ->
  hvsc_parse_simple_timestamp (M ++ rest)%string endptr w
  = (-1, Some rest, set_errno HVSC_ERR_TIMESTAMP w).
Proof.
  intros HM Hrest Hcolon. unfold hvsc_parse_simple_timestamp.
  change 0 with (wrap_long 0) at 1.
  rewrite minutes_loop_digits by trivial. now rewrite Hcolon.
Qed.

Lemma timestamp_missing_colon_witness :
  hvsc_parse_simple_timestamp "357 0:12" None world0
  = (-1, Some " 0:12", set_errno HVSC_ERR_TIMESTAMP world0).
Proof.
  apply (timestamp_missing_colon "357" " 0:12" None world0); reflexivity.
Defined.

(** ** Big-endian and little-endian words *)

Lemma code_range (c : ascii) : 0 <= code c < 256.
Proof.
  unfold code. pose proof (N_ascii_bounded c). lia.
Qed.

Lemma wrap_int_small (z : Z) : - 2 ^ 31 <= z < 2 ^ 31 -> wrap_int z = z.
Proof. unfold wrap_int. intros Hz. rewrite Z.mod_small by lia. lia. Qed.

Lemma wrap_int_shift (z k : Z) : wrap_int (z + k * 2 ^ 32) = wrap_int z.
Proof.
  unfold wrap_int.
  replace (z + k * 2 ^ 32 + 2 ^ 31) with (z + 2 ^ 31 + k * 2 ^ 32) by lia.
  now rewrite Z_mod_plus_full.
Qed.

Lemma wrap_int_congr (z : Z) : exists k, wrap_int z = z + k * 2 ^ 32.
Proof.
  exists (- ((z + 2 ^ 31) / 2 ^ 32)). unfold wrap_int.
  pose proof (Z_div_mod_eq_full (z + 2 ^ 31) (2 ^ 32)). lia.
Qed.

Lemma to_uint32_wrap_int (z : Z) : to_uint32 (wrap_int z) = to_uint32 z.
Proof.
  unfold to_uint32. destruct (wrap_int_congr z) as [k ->].
  apply Z_mod_plus_full.
Qed.

Lemma wrap_int_add_l (a b : Z) : wrap_int (wrap_int a + b) = wrap_int (a + b).
Proof.
  destruct (wrap_int_congr a) as [k ->].
  replace (a + k * 2 ^ 32 + b) with (a + b + k * 2 ^ 32) by lia.
  apply wrap_int_shift.
Qed.

Lemma wrap_int_add_r (a b : Z) : wrap_int (a + wrap_int b) = wrap_int (a + b).
Proof. rewrite Z.add_comm, wrap_int_add_l. f_equal. lia. Qed.

Lemma code_byte (v : Z) :
  0 <= v < 256 -> code (ascii_of_N (Z.to_N v)) = v.
Proof.
  intros Hv. unfold code. rewrite N_ascii_embedding by lia. lia.
Qed.

(** X10: the two 16-bit readers give [256 * first + second] and
    [256 * second + first] of the first two bytes, a number below 65536;
    the big-endian one reads back every such number from its two
    big-endian bytes, and with fewer than two bytes there is nothing
    defined to read. *)
Theorem get_word_value (src : list ascii) :
  (forall a b rest, src = a :: b :: rest ->
     hvsc_get_word_be src = Some (256 * code a + code b) /\
     hvsc_get_word_le src = Some (256 * code b + code a) /\
     hvsc_get_word_le src = hvsc_get_word_be (b :: a :: rest)) /\
  (forall v, 0 <= v < 65536 -> hvsc_get_word_be (be_bytes 2 v) = Some v) /\
  ((length src < 2)%nat ->
     hvsc_get_word_be src = None /\ hvsc_get_word_le src = None).
Proof.
  assert (forall a b, to_uint16 (wrap_int (wrap_int (Z.shiftl (code a) 8)
                                           + code b))
                      = 256 * code a + code b) as Hval.
  { intros a b. pose proof (code_range a). pose proof (code_range b).
    rewrite Z.shiftl_mul_pow2 by lia.
    rewrite (wrap_int_small (code a * 2 ^ 8)) by lia.
    rewrite wrap_int_small by lia.
    unfold to_uint16. rewrite Z.mod_small by lia. lia. }
  split; [|split].
  - intros a b rest ->.
    unfold hvsc_get_word_be, hvsc_get_word_le, byte_at.
    cbn [lookup list_lookup fmap option_fmap option_map mbind option_bind].
    now rewrite !Hval.
  - intros v Hv. cbn [be_bytes app].
    unfold hvsc_get_word_be, byte_at.
    cbn [lookup list_lookup fmap option_fmap option_map mbind option_bind].
    rewrite Hval.
    assert (0 <= v / 256 < 256)
      by (split; [apply Z.div_pos; lia | apply Z.div_lt_upper_bound; lia]).
    pose proof (Z.mod_pos_bound v 256 ltac:(lia)).
    pose proof (Z.mod_pos_bound (v / 256) 256 ltac:(lia)).
    rewrite !code_byte by lia.
    rewrite (Z.mod_small (v / 256)) by lia.
    pose proof (Z_div_mod_eq_full v 256). f_equal. lia.
  - intros Hlen. destruct src as [|a [|b rest]]; [| |simpl in Hlen; lia];
      split; reflexivity.
Qed.

Lemma get_word_value_witness :
  hvsc_get_word_be (list_ascii_of_string "PSID") = Some 20563 /\
  hvsc_get_word_le (list_ascii_of_string "PSID") = Some 21328.
Proof.
  destruct (proj1 (get_word_value (list_ascii_of_string "PSID"))
              "P"%char "S"%char (list_ascii_of_string "ID") eq_refl)
    as (Hbe & Hle & _).
  split; [exact Hbe | exact Hle].
Defined.

Ltac peel_wrap_int k :=
  match goal with
  | |- context [wrap_int ?t] => destruct (wrap_int_congr t) as [k ->]
  end.

(** X11: [hvsc_get_longword_be] gives the big-endian value of the first
    four bytes, a number below 2^32, also when the first byte is 128 or more
    and the shifted [int] has wrapped; it reads back every number below
    2^32 from its four big-endian bytes. *)
Theorem get_longword_value (src : list ascii) :
  (forall a b c d rest, src = a :: b :: c :: d :: rest ->
     hvsc_get_longword_be src
     = Some (2 ^ 24 * code a + 2 ^ 16 * code b + 2 ^ 8 * code c + code d)) /\
  (forall v, 0 <= v < 2 ^ 32 -> hvsc_get_longword_be (be_bytes 4 v) = Some v) /\
  ((length src < 4)%nat -> hvsc_get_longword_be src = None).
Proof.
  assert (forall a b c d,
            to_uint32
              (wrap_int
                 (wrap_int
                    (wrap_int (wrap_int (Z.shiftl (code a) 24)
                               + wrap_int (Z.shiftl (code b) 16))
                     + wrap_int (Z.shiftl (code c) 8))
                  + code d))
            = 2 ^ 24 * code a + 2 ^ 16 * code b + 2 ^ 8 * code c + code d)
    as Hval.
  { intros a b c d.
    pose proof (code_range a). pose proof (code_range b).
    pose proof (code_range c). pose proof (code_range d).
    rewrite !Z.shiftl_mul_pow2 by lia.
    peel_wrap_int k1. peel_wrap_int k2. peel_wrap_int k3.
    peel_wrap_int k4. peel_wrap_int k5. peel_wrap_int k6.
    unfold to_uint32.
    match goal with
    | |- ?x mod _ = ?y =>
        replace x with (y + (k1 + k2 + k3 + k4 + k5 + k6) * 2 ^ 32) by lia
    end.
    rewrite Z_mod_plus_full. apply Z.mod_small. lia. }
  split; [|split].
  - intros a b c d rest ->.
    unfold hvsc_get_longword_be, byte_at.
    cbn [lookup list_lookup fmap option_fmap option_map mbind option_bind].
    now rewrite Hval.
  - intros v Hv. cbn [be_bytes app].
    unfold hvsc_get_longword_be, byte_at.
    cbn [lookup list_lookup fmap option_fmap option_map mbind option_bind].
    rewrite Hval.
    pose proof (Z.mod_pos_bound v 256 ltac:(lia)).
    pose proof (Z.mod_pos_bound (v / 256) 256 ltac:(lia)).
    pose proof (Z.mod_pos_bound (v / 256 / 256) 256 ltac:(lia)).
    pose proof (Z.mod_pos_bound (v / 256 / 256 / 256) 256 ltac:(lia)).
    rewrite !code_byte by lia.
    pose proof (Z_div_mod_eq_full v 256).
    pose proof (Z_div_mod_eq_full (v / 256) 256).
    pose proof (Z_div_mod_eq_full (v / 256 / 256) 256).
    pose proof (Z_div_mod_eq_full (v / 256 / 256 / 256) 256).
    assert (v / 256 / 256 / 256 / 256 = 0).
    { rewrite !Z.div_div by lia. apply Z.div_small. lia. }
    f_equal. lia.
  - intros Hlen.
    destruct src as [|a [|b [|c [|d rest]]]]; try reflexivity.
    simpl in Hlen. lia.
Qed.

Lemma get_longword_value_witness :
  hvsc_get_longword_be (be_bytes 4 4294901760) = Some 4294901760.
Proof.
  apply (proj1 (proj2 (get_longword_value []))). vm_compute.
  intuition discriminate.
Defined.

(** ** Strings in heap blocks *)

Lemma bytes_of_chars (s : string) :
  bytes_of s = list_ascii_of_string s ++ [NUL].
Proof. induction s as [|c s IH]; simpl; congruence. Qed.

Lemma chars_length (s : string) :
  length (list_ascii_of_string s) = String.length s.
Proof. induction s as [|c s IH]; simpl; congruence. Qed.

Lemma chars_first_bytes (n : nat) (s : string) :
  list_ascii_of_string (first_bytes n s) = take n (list_ascii_of_string s).
Proof.
  unfold first_bytes. revert s.
  induction n as [|n IH]; intros [|c s]; simpl; try reflexivity.
  now rewrite IH.
Qed.

Lemma nul_free_first_bytes (n : nat) (s : string) :
  nul_free s = true -> nul_free (first_bytes n s) = true.
Proof.
  unfold nul_free. rewrite chars_first_bytes.
  rewrite !forallb_forall. intros H c Hc. apply H.
  apply list_elem_of_In. apply list_elem_of_In in Hc.
  now apply (subseteq_take n).
Qed.

(** A block that begins with the bytes of a string and a NUL holds that
    string. *)
Lemma cstring_at_image (s : string) (tail : block) :
  nul_free s = true ->
  cstring_at (map Some (list_ascii_of_string s) ++ Some NUL :: tail) = Some s.
Proof.
  unfold nul_free. induction s as [|c s IH]; intros Hnf; [reflexivity|].
  simpl in Hnf. apply andb_true_iff in Hnf as [Hc Hnf].
  apply negb_true_iff in Hc. simpl. rewrite Hc, (IH Hnf). reflexivity.
Qed.

(** Writing behind the written part of a block that is otherwise fresh. *)
Lemma store_bytes_append (pre bs : list ascii) (k : nat) :
  (length bs <= k)%nat ->
  store_bytes (map Some pre ++ replicate k None) (Z.of_nat (length pre)) bs
  = Some (map Some (pre ++ bs) ++ replicate (k - length bs) None).
Proof.
  intros Hk. rewrite store_bytes_some
    by (rewrite ?length_app, ?length_map, ?length_replicate; lia).
  rewrite Nat2Z.id. f_equal.
  rewrite take_app_length' by now rewrite length_map.
  rewrite drop_app_add' by now rewrite length_map.
  rewrite drop_replicate, map_app, <- app_assoc. reflexivity.
Qed.

Lemma store_append (pre : list ascii) (c : ascii) (k : nat) :
  store (map Some pre ++ replicate (S k) None) (Z.of_nat (length pre)) c
  = Some (map Some (pre ++ [c]) ++ replicate k None).
Proof.
  rewrite store_some
    by (rewrite length_app, length_map, length_replicate; lia).
  rewrite Nat2Z.id. f_equal.
  rewrite insert_app_r_alt by (rewrite length_map; lia).
  rewrite length_map, Nat.sub_diag. cbn [replicate].
  rewrite map_app, <- app_assoc. reflexivity.
Qed.

(** X12: for a string without NUL bytes and room for its terminator in
    [size_t], the block that the stand-alone [hvsc_strdup] fills holds
    exactly the string the callers of [hvsc_strdup] are given, in
    [strlen + 1] bytes, and the heap has one block more. *)
Theorem strdup_mem_copy (s : string) (w : world) :
  nul_free s = true ->
  strlen s < SIZE_MAX ->
  exists t,
    hvsc_strdup_mem s w = (Some t, (hvsc_strdup s w).2) /\
    cstring_at t = Some (hvsc_strdup s w).1 /\
    Z.of_nat (length t) = strlen s + 1 /\
    heap_live (hvsc_strdup s w).2 = heap_live w + 1.
Proof.
  intros Hnf Hlen. unfold hvsc_strdup_mem, hvsc_strdup, hvsc_malloc, strlen in *.
  rewrite wrap_size_small by lia. cbn [fst snd].
  replace (Z.to_nat (Z.of_nat (String.length s) + 1))
    with (S (String.length s)) by lia.
  rewrite bytes_of_chars.
  rewrite take_ge by (rewrite length_app, chars_length; simpl; lia).
  change (replicate (S (String.length s)) None)
    with (map Some [] ++ replicate (S (String.length s)) (@None ascii)).
  rewrite (store_bytes_append [] _ (S (String.length s)))
    by (rewrite length_app, chars_length; simpl; lia).
  eexists. split; [reflexivity|]. cbn [app].
  rewrite length_app, chars_length. cbn [length].
  replace (S (String.length s) - (String.length s + 1))%nat with 0%nat by lia.
  cbn [replicate]. rewrite app_nil_r, map_app. cbn [map].
  rewrite cstring_at_image by exact Hnf.
  rewrite length_app, length_map, chars_length. cbn [length].
  repeat split. lia.
Qed.

Lemma strdup_mem_copy_witness :
  exists t,
    hvsc_strdup_mem "Commando.sid" world0
    = (Some t, (hvsc_strdup "Commando.sid" world0).2) /\
    cstring_at t = Some "Commando.sid".
Proof.
  destruct (strdup_mem_copy "Commando.sid" world0 eq_refl eq_refl)
    as (t & Heq & Hstr & _).
  now exists t.
Defined.

Lemma nul_padding (k : nat) :
  exists tail, replicate k NUL ++ [NUL] = NUL :: tail.
Proof. destruct k as [|k]; simpl; eauto. Qed.

(** X13: for a string without NUL bytes, [hvsc_strndup(s, n)] returns a
    block of [n + 1] bytes that holds the first [n] bytes of [s], or all of
    [s] when it is shorter; the heap has one block more. *)
Theorem strndup_copy (s : string) (n : Z) (w : world) :
  nul_free s = true ->
  0 <= n < SIZE_MAX ->
  exists t,
    hvsc_strndup s n w = (Some t, set_heap_live (heap_live w + 1) w) /\
    cstring_at t = Some (first_bytes (Z.to_nat n) s) /\
    Z.of_nat (length t) = n + 1 /\
    strlen (first_bytes (Z.to_nat n) s) = Z.min n (strlen s).
Proof.
  intros Hnf Hn. unfold hvsc_strndup, hvsc_malloc, strncpy.
  cbv beta iota zeta. rewrite wrap_size_small by lia.
  remember (Z.to_nat n) as N eqn:HN.
  replace (Z.to_nat (n + 1)) with (S N) by lia.
  set (bs := take N (list_ascii_of_string s)).
  set (pad := replicate (N - length bs) NUL).
  assert (length (bs ++ pad) = N) as Hlen.
  { subst bs pad. rewrite length_app, length_replicate, length_take. lia. }
  change (replicate (S N) None)
    with (map Some [] ++ replicate (S N) (@None ascii)).
  pose proof (store_bytes_append [] (bs ++ pad) (S N) ltac:(lia)) as Hst.
  cbn [length app map] in Hst. change (Z.of_nat 0) with 0 in Hst.
  cbn [map app]. rewrite Hst.
  cbn [app mbind option_bind]. rewrite Hlen.
  replace (S N - N)%nat with 1%nat by lia.
  pose proof (store_append (bs ++ pad) NUL 0) as Hst2.
  rewrite Hlen in Hst2. replace (Z.of_nat N) with n in Hst2 by lia.
  rewrite Hst2.
  eexists. split; [reflexivity|]. cbn [replicate]. rewrite app_nil_r.
  split; [|split].
  - destruct (nul_padding (N - length bs)) as [tail Htail].
    fold pad in Htail. rewrite <- app_assoc, Htail, map_app. cbn [map].
    subst bs. rewrite <- chars_first_bytes.
    apply cstring_at_image. now apply nul_free_first_bytes.
  - rewrite length_map, length_app, Hlen. cbn [length]. lia.
  - unfold strlen. rewrite <- !chars_length, chars_first_bytes, length_take.
    lia.
Qed.

Lemma strndup_copy_witness :
  exists t,
    hvsc_strndup "/MUSICIANS/H/Hubbard_Rob" 10 world0
    = (Some t, set_heap_live 1 world0) /\
    cstring_at t = Some "/MUSICIANS".
Proof.
  destruct (strndup_copy "/MUSICIANS/H/Hubbard_Rob" 10 world0 eq_refl)
    as (t & Heq & Hstr & _); [vm_compute; intuition discriminate|].
  now exists t.
Defined.

Lemma dir_separator_not_nul (W : bool) : code (dir_separator W) <> 0.
Proof. destruct W; discriminate. Qed.

Lemma nul_free_app (a b : string) :
  nul_free a = true -> nul_free b = true -> nul_free (a ++ b) = true.
Proof.
  unfold nul_free. induction a as [|c a IH]; simpl; [trivial|].
  intros [Hc Ha]%andb_true_iff Hb. now rewrite Hc, IH.
Qed.

Lemma chars_app (a b : string) :
  list_ascii_of_string (a ++ b)
  = list_ascii_of_string a ++ list_ascii_of_string b.
Proof. induction a as [|c a IH]; simpl; congruence. Qed.

(** X14: for two paths without NUL bytes whose lengths leave room in
    [size_t], the block that the three copies of the stand-alone
    [hvsc_paths_join] fill holds exactly the string the callers of
    [hvsc_paths_join] are given: the first path, one separator, the second
    path; a [NULL] argument gives [NULL] and allocates nothing. *)
Theorem paths_join_mem_copy (W : bool) (a b : string) (w : world) :
  nul_free a = true ->
  nul_free b = true ->
  strlen a + strlen b + 2 <= SIZE_MAX ->
  (exists t,
     hvsc_paths_join_mem W (Some a) (Some b) w
     = (Some (Some t), (hvsc_paths_join W (Some a) (Some b) w).2) /\
     cstring_at <$> Some t = Some (hvsc_paths_join W (Some a) (Some b) w).1 /\
     Z.of_nat (length t) = strlen a + strlen b + 2) /\
  hvsc_paths_join_mem W None (Some b) w = (Some None, w) /\
  hvsc_paths_join_mem W (Some a) None w = (Some None, w).
Proof.
  intros Ha Hb Hlen. split; [|split; reflexivity].
  unfold hvsc_paths_join_mem, hvsc_paths_join, hvsc_malloc.
  cbv beta iota zeta. cbn [fst snd].
  set (ca := list_ascii_of_string a). set (cb := list_ascii_of_string b).
  assert (strlen a = Z.of_nat (length ca)) as Hca
    by (unfold strlen; subst ca; now rewrite chars_length).
  assert (strlen b = Z.of_nat (length cb)) as Hcb
    by (unfold strlen; subst cb; now rewrite chars_length).
  rewrite Hca, Hcb in *. rewrite !wrap_size_small by lia.
  assert (take (Z.to_nat (Z.of_nat (length ca))) (bytes_of a) = ca) as ->
    by (rewrite bytes_of_chars, Nat2Z.id; apply take_app_length).
  assert (take (Z.to_nat (Z.of_nat (length cb) + 1)) (bytes_of b)
          = cb ++ [NUL]) as ->.
  { rewrite bytes_of_chars. apply take_ge. fold cb.
    rewrite length_app. simpl. lia. }
  replace (Z.to_nat (Z.of_nat (length ca) + Z.of_nat (length cb) + 2))
    with (length ca + S (S (length cb)))%nat by lia.
  pose proof (store_bytes_append [] ca (length ca + S (S (length cb)))
                ltac:(lia)) as S1.
  cbn [length app map] in S1. change (Z.of_nat 0) with 0 in S1.
  replace (length ca + S (S (length cb)) - length ca)%nat
    with (S (S (length cb))) in S1 by lia.
  rewrite S1. cbn [mbind option_bind].
  rewrite (store_append ca (dir_separator W) (S (length cb))).
  cbn [mbind option_bind].
  pose proof (store_bytes_append (ca ++ [dir_separator W]) (cb ++ [NUL])
                (S (length cb)) ltac:(rewrite length_app; simpl; lia)) as S3.
  replace (Z.of_nat (length (ca ++ [dir_separator W])))
    with (Z.of_nat (length ca) + 1) in S3
    by (rewrite length_app; simpl; lia).
  rewrite S3. cbn [fmap option_fmap option_map].
  eexists. split; [reflexivity|]. split.
  - f_equal. rewrite length_app. cbn [length].
    replace (S (length cb) - (length cb + 1))%nat with 0%nat by lia.
    cbn [replicate]. rewrite app_nil_r.
    replace ((ca ++ [dir_separator W]) ++ cb ++ [NUL])
      with (list_ascii_of_string (a ++ String (dir_separator W) b) ++ [NUL])
      by (rewrite chars_app; subst ca cb; simpl;
          now rewrite <- !app_assoc).
    rewrite map_app. cbn [map].
    apply cstring_at_image, nul_free_app; [exact Ha|].
    unfold nul_free in *. simpl. rewrite Hb.
    pose proof (dir_separator_not_nul W) as Hsep.
    apply Z.eqb_neq in Hsep. now rewrite Hsep.
  - rewrite length_app, length_map, !length_app, length_replicate.
    cbn [length]. lia.
Qed.

Lemma paths_join_mem_copy_witness :
  exists t,
    hvsc_paths_join_mem false (Some "/hvsc") (Some "DOCUMENTS/STIL.txt") world0
    = (Some (Some t), set_heap_live 1 world0) /\
    cstring_at t = Some "/hvsc/DOCUMENTS/STIL.txt".
Proof.
  destruct (proj1 (paths_join_mem_copy false "/hvsc" "DOCUMENTS/STIL.txt"
                     world0 eq_refl eq_refl
                     ltac:(vm_compute; discriminate)))
    as (t & Heq & Hstr & _).
  exists t. split; [exact Heq|]. now injection Hstr.
Defined.

(** ** The digest as text *)

Lemma hex_digit_spec (k : Z) :
  0 <= k < 16 ->
  digit_at k = Some (hex_digit k) /\
  unhex_digit (hex_digit k) = Some k /\
  code (hex_digit k) <> 0.
Proof.
  intros Hk.
  assert (k = 0 \/ k = 1 \/ k = 2 \/ k = 3 \/ k = 4 \/ k = 5 \/ k = 6 \/ k = 7
          \/ k = 8 \/ k = 9 \/ k = 10 \/ k = 11 \/ k = 12 \/ k = 13 \/ k = 14
          \/ k = 15) as Hcases by lia.
  repeat (destruct Hcases as [->|Hcases]; [repeat split; discriminate|]).
  subst k. repeat split; discriminate.
Qed.

Lemma nibbles (c : ascii) :
  0 <= Z.shiftr (code c) 4 < 16 /\ 0 <= Z.land (code c) 15 < 16 /\
  16 * Z.shiftr (code c) 4 + Z.land (code c) 15 = code c.
Proof.
  pose proof (code_range c) as Hc.
  rewrite Z.shiftr_div_pow2 by lia.
  change 15 with (Z.ones 4). rewrite Z.land_ones by lia.
  change (2 ^ 4) with 16.
  pose proof (Z_div_mod_eq_full (code c) 16).
  pose proof (Z.mod_pos_bound (code c) 16 ltac:(lia)).
  assert (0 <= code c / 16 < 16)
    by (split; [apply Z.div_pos; lia | apply Z.div_lt_upper_bound; lia]).
  lia.
Qed.

Lemma unhex_hex_of (hash : list ascii) :
  unhex (hex_of hash) = Some (map code hash).
Proof.
  induction hash as [|h hash IH]; [reflexivity|].
  destruct (nibbles h) as (Hhi & Hlo & Hsum).
  destruct (hex_digit_spec _ Hhi) as (_ & Hhi' & _).
  destruct (hex_digit_spec _ Hlo) as (_ & Hlo' & _).
  cbn [hex_of flat_map app unhex]. fold (hex_of hash).
  rewrite Hhi', Hlo', IH. cbn [mbind option_bind map]. now rewrite Hsum.
Qed.

Lemma hex_of_length (hash : list ascii) :
  length (hex_of hash) = (2 * length hash)%nat.
Proof. induction hash as [|h hash IH]; simpl in *; lia. Qed.

Lemma hex_of_nul_free (hash : list ascii) :
  nul_free (string_of_list_ascii (hex_of hash)) = true.
Proof.
  unfold nul_free. rewrite list_ascii_of_string_of_list_ascii.
  induction hash as [|h hash IH]; [reflexivity|].
  destruct (nibbles h) as (Hhi & Hlo & _).
  destruct (hex_digit_spec _ Hhi) as (_ & _ & Hhi'%Z.eqb_neq).
  destruct (hex_digit_spec _ Hlo) as (_ & _ & Hlo'%Z.eqb_neq).
  cbn [hex_of flat_map app forallb]. fold (hex_of hash).
  now rewrite Hhi', Hlo', IH.
Qed.

(** A store into the first cell behind the written part of a block. *)
Lemma store_behind (pre : list ascii) (x : option ascii) (tail : block)
    (c : ascii) :
  store (map Some pre ++ x :: tail) (Z.of_nat (length pre)) c
  = Some (map Some (pre ++ [c]) ++ tail).
Proof.
  rewrite store_some by (rewrite length_app, length_map; simpl; lia).
  rewrite Nat2Z.id. f_equal.
  rewrite insert_app_r_alt by (rewrite length_map; lia).
  rewrite length_map, Nat.sub_diag. cbn [insert list_insert].
  rewrite map_app, <- app_assoc. reflexivity.
Qed.

Lemma digest_loop_result (n : nat) :
  forall (i : Z) (hash pre : list ascii) (tail : block),
    Z.of_nat (length pre) = i * 2 -> 0 <= i ->
    (Z.to_nat i + n <= length hash)%nat ->
    (2 * n + 1 <= length tail)%nat ->
    digest_loop n i hash (map Some pre ++ tail)
    = Some (map Some (pre ++ hex_of (take n (drop (Z.to_nat i) hash)) ++ [NUL])
            ++ drop (2 * n + 1) tail).
Proof.
  induction n as [|n IH]; intros i hash pre tail Hpre Hi Hhash Htail.
  - cbn [digest_loop take hex_of flat_map app]. rewrite <- Hpre.
    destruct tail as [|x tail]; [simpl in Htail; lia|].
    rewrite store_behind. reflexivity.
  - cbn [digest_loop].
    destruct (drop (Z.to_nat i) hash) as [|h rest] eqn:Hdrop.
    { apply (f_equal length) in Hdrop. rewrite length_drop in Hdrop.
      simpl in Hdrop. lia. }
    assert (hash !! Z.to_nat i = Some h) as Hh.
    { rewrite <- (Nat.add_0_r (Z.to_nat i)), <- lookup_drop, Hdrop.
      reflexivity. }
    unfold byte_at. rewrite Hh.
    cbn [fmap option_fmap option_map mbind option_bind].
    destruct (nibbles h) as (Hhi & Hlo & _).
    destruct (hex_digit_spec _ Hhi) as (-> & _ & _).
    destruct (hex_digit_spec _ Hlo) as (-> & _ & _).
    cbn [mbind option_bind].
    destruct tail as [|x [|y tail]]; [simpl in Htail; lia.. |].
    rewrite Z.add_0_r, <- Hpre, store_behind. cbn [mbind option_bind].
    replace (Z.of_nat (length pre) + 1)
      with (Z.of_nat (length (pre ++ [hex_digit (Z.shiftr (code h) 4)])))
      by (rewrite length_app; simpl; lia).
    rewrite store_behind. cbn [mbind option_bind].
    rewrite (IH (i + 1) hash _ tail);
      rewrite ?length_app; cbn [length]; try lia.
    2: { simpl in Htail. lia. }
    replace (Z.to_nat (i + 1)) with (S (Z.to_nat i)) by lia.
    assert (drop (S (Z.to_nat i)) hash = rest) as ->.
    { replace (S (Z.to_nat i)) with (Z.to_nat i + 1)%nat by lia.
      rewrite <- drop_drop, Hdrop. reflexivity. }
    cbn [take hex_of flat_map app]. fold (hex_of (take n rest)).
    replace (2 * S n + 1)%nat with (S (S (2 * n + 1))) by lia.
    cbn [drop]. rewrite <- !app_assoc. reflexivity.
Qed.

(** X15: when the file cannot be opened [hvsc_md5_digest] returns false,
    sets the I/O code and leaves the caller's buffer as it was. Otherwise,
    with a hash of 16 bytes and a buffer of at least 33, it returns true
    and the buffer holds a string of 32 lower-case hexadecimal digits that
    reads back, two digits a byte, as the hash; nothing behind the first 33
    bytes of the buffer is written, [hvsc_errno] is untouched and the
    stream is closed again. *)
Theorem md5_digest_hex
    (md5File : list ascii -> list ascii) (fs : filesystem) (psid : string)
    (digest : block) (w : world) :
  (fopen fs psid = None ->
   hvsc_md5_digest md5File fs psid digest w
   = Some (false, digest, set_errno HVSC_ERR_IO w)) /\
  (forall bytes bad,
     fopen fs psid = Some (Stream bytes bad false false) ->
     length (md5File bytes) = 16%nat ->
     (33 <= length digest)%nat ->
     let hex := string_of_list_ascii (hex_of (md5File bytes)) in
     exists d w',
       hvsc_md5_digest md5File fs psid digest w = Some (true, d, w') /\
       cstring_at d = Some hex /\
       String.length hex = 32%nat /\
       unhex (list_ascii_of_string hex) = Some (map code (md5File bytes)) /\
       drop 33 d = drop 33 digest /\
       hvsc_errno w' = hvsc_errno w /\
       streams_open w' = streams_open w /\
       heap_live w' = heap_live w).
Proof.
  split.
  - intros Hopen. unfold hvsc_md5_digest. now rewrite Hopen.
  - intros bytes bad Hopen Hhash Hbuf hex.
    unfold hvsc_md5_digest. rewrite Hopen. cbn [pending].
    change (Z.to_nat HVSC_DIGEST_SIZE) with 16%nat.
    pose proof (digest_loop_result 16 0 (md5File bytes) [] digest
                  eq_refl ltac:(lia) ltac:(simpl; lia) ltac:(lia)) as Hloop.
    cbn [map app] in Hloop. rewrite Hloop. cbn [mbind option_bind].
    change (Z.to_nat 0) with 0%nat. rewrite drop_0.
    rewrite take_ge by lia.
    eexists _, _. split; [reflexivity|].
    change (2 * 16 + 1)%nat with 33%nat.
    split; [|split; [|split; [|split]]].
    + rewrite map_app. cbn [map]. rewrite <- app_assoc. cbn [app].
      rewrite <- (list_ascii_of_string_of_list_ascii (hex_of (md5File bytes))).
      fold hex. apply cstring_at_image. apply hex_of_nul_free.
    + subst hex. rewrite <- chars_length, list_ascii_of_string_of_list_ascii.
      rewrite hex_of_length. lia.
    + subst hex. rewrite list_ascii_of_string_of_list_ascii.
      apply unhex_hex_of.
    + rewrite drop_app_length'; [reflexivity|].
      rewrite length_map, length_app, hex_of_length. simpl. lia.
    + cbn. repeat split; lia.
Qed.

Lemma md5_digest_hex_witness :
  exists d w',
    hvsc_md5_digest (fun _ => replicate 16 "J"%char) example_fs "last.txt"
      (replicate 40 None) world0
    = Some (true, d, w') /\
    cstring_at d = Some "4a4a4a4a4a4a4a4a4a4a4a4a4a4a4a4a".
Proof.
  destruct (proj2 (md5_digest_hex (fun _ => replicate 16 "J"%char) example_fs
                     "last.txt" (replicate 40 None) world0)
              lastline_bytes false eq_refl eq_refl ltac:(simpl; lia))
    as (d & w' & Heq & Hstr & _).
  now exists d, w'.
Defined.

(** ** What the buffered reader returns *)

(** The test at the top of the loop only ever adds cells behind the two
    buffers. *)
Lemma resize_step_content
    (f : FILE) (pa : option string) (ln ll : Z) (b pb : block) (bl i : Z)
    (w : world) :
  Z.of_nat (length b) = bl -> Z.of_nat (length pb) = bl ->
  1 <= bl <= SIZE_MAX -> 0 <= i < bl -> i + 1 < 2 ^ 63 ->
  exists padb pad bl',
    (if i =? wrap_size (bl - 1)
     then grow_buffers (Handle (Some f) pa ln ll (Some b) (Some pb) bl) w
     else (Handle (Some f) pa ln ll (Some b) (Some pb) bl, w))
    = (Handle (Some f) pa ln ll (Some (b ++ padb)) (Some (pb ++ pad)) bl', w)
    /\ Z.of_nat (length (b ++ padb)) = bl'
    /\ Z.of_nat (length (pb ++ pad)) = bl'
    /\ bl <= bl' <= SIZE_MAX /\ i + 1 < bl'.
Proof.
  intros Hb Hpb Hbl Hi Hbound.
  rewrite wrap_size_small by lia.
  destruct (Z.eqb_spec i (bl - 1)) as [->|Hne].
  - assert (wrap_size (bl * 2) = 2 * bl) as Hn
      by (rewrite wrap_size_small; unfold SIZE_MAX; lia).
    unfold grow_buffers.
    cbn [buflen buffer prevbuf fp path lineno linelen hvsc_realloc].
    rewrite Hn, !take_ge by lia.
    eexists _, _, _. split; [reflexivity|].
    rewrite !length_app, !length_replicate. unfold SIZE_MAX in *.
    repeat split; lia.
  - exists [], [], bl. rewrite !app_nil_r. repeat split; try lia.
Qed.

Lemma take_store_snoc (b : block) (i : nat) (c : ascii) :
  (i < length b)%nat ->
  take (S i) (<[i := Some c]> b) = take i b ++ [Some c].
Proof.
  intros Hi. rewrite (take_S_r _ _ (Some c))
    by now apply list_lookup_insert_eq.
  now rewrite take_insert_ge by lia.
Qed.

(** The rounds of the loop that take the bytes of a line: they end in
    the state in which the line is in the buffer and the stream is behind
    it. *)
Lemma read_loop_accumulate (line : list ascii) :
  forall (fuel0 : nat) (tail : list ascii) (fa eo er : bool)
         (pa : option string) (ln ll : Z) (b pb : block) (bl i : Z)
         (w : world),
    Forall (fun c => c <> LF) line ->
    Z.of_nat (length b) = bl -> Z.of_nat (length pb) = bl ->
    1 <= bl <= SIZE_MAX -> 0 <= i < bl ->
    i + Z.of_nat (length line) + 1 < 2 ^ 63 ->
    exists b' pad bl',
      text_file_read_loop (length line + fuel0)
        (Handle (Some (Stream (line ++ tail) fa eo er)) pa ln ll
                (Some b) (Some pb) bl) i w
      = text_file_read_loop fuel0
          (Handle (Some (Stream tail fa eo er)) pa ln ll
                  (Some b') (Some (pb ++ pad)) bl')
          (i + Z.of_nat (length line)) w
      /\ Z.of_nat (length b') = bl'
      /\ Z.of_nat (length (pb ++ pad)) = bl'
      /\ bl <= bl' <= SIZE_MAX
      /\ i + Z.of_nat (length line) < bl'
      /\ take (Z.to_nat i + length line) b'
         = take (Z.to_nat i) b ++ map Some line.
Proof.
  induction line as [|c line IH];
    intros fuel0 tail fa eo er pa ln ll b pb bl i w
           Hline Hb Hpb Hbl Hi Hbound.
  - exists b, [], bl. cbn [length app map Nat.add].
    rewrite !app_nil_r, Z.add_0_r, Nat.add_0_r. repeat split; lia.
  - apply Forall_cons in Hline as [Hc Hline].
    cbn [length Nat.add text_file_read_loop buflen].
    cbn [length] in Hbound. rewrite Nat2Z.inj_succ in Hbound.
    destruct (resize_step_content (Stream ((c :: line) ++ tail) fa eo er)
                pa ln ll b pb bl i w Hb Hpb Hbl Hi ltac:(lia))
      as (padb & pad1 & bl1 & -> & Hb1 & Hpb1 & Hbl1 & Hi1).
    cbn -[store cstring_at text_file_read_loop].
    destruct (Ascii.eqb_spec c LF) as [->|_]; [contradiction|].
    rewrite store_some by lia. cbn [mbind option_bind].
    unfold with_buffer, with_stream.
    cbn [buffer prevbuf buflen fp path lineno linelen].
    destruct (IH fuel0 tail fa eo er pa ln ll
                (<[Z.to_nat i := Some c]> (b ++ padb)) (pb ++ pad1) bl1
                (i + 1) w Hline)
      as (b' & pad & bl' & Heq & Hb' & Hpb' & Hbl' & Hi' & Htake);
      rewrite ?length_insert; try lia.
    exists b', (pad1 ++ pad), bl'. rewrite app_assoc.
    rewrite Heq. split.
    + f_equal. rewrite Nat2Z.inj_succ. lia.
    + rewrite Nat2Z.inj_succ. repeat split; try lia.
      replace (Z.to_nat i + S (length line))%nat
        with (Z.to_nat (i + 1) + length line)%nat by lia.
      rewrite Htake.
      replace (Z.to_nat (i + 1)) with (S (Z.to_nat i)) by lia.
      rewrite take_store_snoc by (rewrite length_app; lia).
      rewrite take_app_le by lia.
      rewrite <- app_assoc. reflexivity.
Qed.

Lemma block_split (b : block) (pre : list ascii) :
  take (length pre) b = map Some pre -> (length pre < length b)%nat ->
  exists x cells, b = map Some pre ++ x :: cells.
Proof.
  intros Htake Hlen. rewrite <- (take_drop (length pre) b), Htake.
  destruct (drop (length pre) b) as [|x cells] eqn:Hdrop.
  - apply (f_equal length) in Hdrop. rewrite length_drop in Hdrop.
    simpl in Hdrop. lia.
  - now exists x, cells.
Qed.

Lemma cstring_at_list (l : list ascii) (tail : block) :
  Forall (fun c => code c <> 0) l ->
  cstring_at (map Some l ++ Some NUL :: tail) = Some (string_of_list_ascii l).
Proof.
  induction 1 as [|c l Hc Hl IH]; [reflexivity|].
  apply Z.eqb_neq in Hc. simpl. now rewrite Hc, IH.
Qed.

Lemma strip_cr_snoc (pre0 : list ascii) (c : ascii) :
  strip_cr (pre0 ++ [c]) = if Ascii.eqb c CR then pre0 else pre0 ++ [c].
Proof.
  unfold strip_cr. rewrite last_snoc. destruct (Ascii.eqb c CR); [|reflexivity].
  rewrite length_app. cbn [length].
  replace (length pre0 + 1 - 1)%nat with (length pre0) by lia.
  apply take_app_length.
Qed.

Lemma strip_cr_nul_free (l : list ascii) :
  Forall (fun c => code c <> 0) l -> Forall (fun c => code c <> 0) (strip_cr l).
Proof.
  intros Hl. unfold strip_cr. destruct (last l) as [c|]; [|exact Hl].
  destruct (Ascii.eqb c CR); [|exact Hl]. now apply Forall_take.
Qed.

(** The round that finds the newline. *)
Lemma read_loop_newline
    (fuel : nat) (rest : list ascii) (fa eo er : bool) (pa : option string)
    (ln ll : Z) (b pb : block) (bl : Z) (pre : list ascii) (w : world) :
  Z.of_nat (length b) = bl -> Z.of_nat (length pb) = bl ->
  1 <= bl <= SIZE_MAX -> Z.of_nat (length pre) < bl ->
  Z.of_nat (length pre) + 1 < 2 ^ 63 ->
  take (length pre) b = map Some pre ->
  Forall (fun c => code c <> 0) pre ->
  exists b' pad bl',
    text_file_read_loop (S fuel)
      (Handle (Some (Stream (LF :: rest) fa eo er)) pa ln ll
              (Some b) (Some pb) bl) (Z.of_nat (length pre)) w
    = Some (Some (string_of_list_ascii (strip_cr pre)),
            Handle (Some (Stream rest fa eo er)) pa (long_add ln 1)
                   (Z.of_nat (length (strip_cr pre)))
                   (Some b') (Some (pb ++ pad)) bl',
            w)
    /\ Z.of_nat (length b') = bl'
    /\ Z.of_nat (length (pb ++ pad)) = bl'
    /\ bl <= bl' <= SIZE_MAX
    /\ cstring_at b' = Some (string_of_list_ascii (strip_cr pre)).
Proof.
  intros Hb Hpb Hbl Hi Hbound Htake Hnf.
  cbn [text_file_read_loop buflen].
  destruct (resize_step_content (Stream (LF :: rest) fa eo er)
              pa ln ll b pb bl (Z.of_nat (length pre)) w Hb Hpb Hbl
              ltac:(lia) Hbound)
    as (padb & pad & bl' & -> & Hb' & Hpb' & Hbl' & Hi').
  destruct (block_split (b ++ padb) pre) as (x & cells & Hsplit).
  { rewrite take_app_le by lia. exact Htake. }
  { lia. }
  rewrite Hsplit in *. clear Hsplit.
  cbn -[store cstring_at].
  rewrite store_behind. cbn [mbind option_bind].
  assert (Z.of_nat (length (map Some (pre ++ [NUL]) ++ cells)) = bl') as Hlen1.
  { rewrite <- Hb'. rewrite !length_app, !length_map, length_app.
    cbn [length]. lia. }
  destruct pre as [|c0 pre0 _] using rev_ind.
  - cbn -[cstring_at].
    eexists _, pad, bl'. split; [reflexivity|].
    repeat split; try lia; try assumption.
  - rewrite strip_cr_snoc, length_app. cbn [length].
    apply Forall_app in Hnf as [Hnf0 Hc0].
    replace (Z.of_nat (length pre0 + 1) - 1) with (Z.of_nat (length pre0))
      by lia.
    assert (cell_is (map Some ((pre0 ++ [c0]) ++ [NUL]) ++ cells)
              (Z.of_nat (length pre0)) CR = Ascii.eqb c0 CR) as ->.
    { unfold cell_is. rewrite Nat2Z.id, <- !app_assoc, map_app.
      rewrite <- app_assoc.
      rewrite lookup_app_r by now rewrite length_map.
      rewrite length_map, Nat.sub_diag. reflexivity. }
    destruct (Z.ltb_spec 0 (Z.of_nat (length pre0 + 1))); [|lia].
    cbn [andb]. destruct (Ascii.eqb c0 CR) eqn:Hcr.
    + rewrite <- !app_assoc, map_app, <- app_assoc. cbn [map app].
      rewrite store_behind. cbn [mbind option_bind].
      rewrite map_app, <- app_assoc. cbn [map app].
      rewrite cstring_at_list by exact Hnf0. cbn [mbind option_bind].
      eexists _, pad, bl'. split; [reflexivity|].
      repeat split; try lia; try assumption.
      * rewrite <- Hb'. rewrite !length_app, !length_map, !length_app.
        cbn [length]. lia.
      * now apply cstring_at_list.
    + cbn [mbind option_bind].
      assert (cstring_at (map Some ((pre0 ++ [c0]) ++ [NUL]) ++ cells)
              = Some (string_of_list_ascii (pre0 ++ [c0]))) as Hstr.
      { rewrite map_app, <- app_assoc. cbn [map app].
        apply cstring_at_list. apply Forall_app. now split. }
      rewrite Hstr. cbn [mbind option_bind].
      rewrite (length_app pre0 [c0]). cbn [length].
      eexists _, pad, bl'. split; [reflexivity|].
      repeat split; try lia; try assumption.
Qed.

(** The round that finds the end of the file. *)
Lemma read_loop_eof
    (fuel : nat) (eo er : bool) (pa : option string)
    (ln ll : Z) (b pb : block) (bl : Z) (pre : list ascii) (w : world) :
  Z.of_nat (length b) = bl -> Z.of_nat (length pb) = bl ->
  1 <= bl <= SIZE_MAX -> Z.of_nat (length pre) < bl ->
  Z.of_nat (length pre) + 1 < 2 ^ 63 ->
  take (length pre) b = map Some pre ->
  Forall (fun c => code c <> 0) pre ->
  exists b' pad bl',
    text_file_read_loop (S fuel)
      (Handle (Some (Stream [] false eo er)) pa ln ll
              (Some b) (Some pb) bl) (Z.of_nat (length pre)) w
    = Some (match pre with
            | [] => None
            | _ => Some (string_of_list_ascii pre)
            end,
            Handle (Some (Stream [] false true er)) pa ln ll
                   (Some b') (Some (pb ++ pad)) bl',
            w)
    /\ Z.of_nat (length b') = bl'
    /\ Z.of_nat (length (pb ++ pad)) = bl'
    /\ bl <= bl' <= SIZE_MAX
    /\ cstring_at b' = Some (string_of_list_ascii pre).
Proof.
  intros Hb Hpb Hbl Hi Hbound Htake Hnf.
  cbn [text_file_read_loop buflen].
  destruct (resize_step_content (Stream [] false eo er)
              pa ln ll b pb bl (Z.of_nat (length pre)) w Hb Hpb Hbl
              ltac:(lia) Hbound)
    as (padb & pad & bl' & -> & Hb' & Hpb' & Hbl' & Hi').
  destruct (block_split (b ++ padb) pre) as (x & cells & Hsplit).
  { rewrite take_app_le by lia. exact Htake. }
  { lia. }
  rewrite Hsplit in *. clear Hsplit.
  cbn -[store cstring_at].
  rewrite store_behind. cbn [mbind option_bind].
  assert (cstring_at (map Some (pre ++ [NUL]) ++ cells)
          = Some (string_of_list_ascii pre)) as Hstr.
  { rewrite map_app, <- app_assoc. cbn [map app]. now apply cstring_at_list. }
  assert (Z.of_nat (length (map Some (pre ++ [NUL]) ++ cells)) = bl') as Hlen1.
  { rewrite <- Hb'. rewrite !length_app, !length_map, length_app.
    cbn [length]. lia. }
  unfold with_buffer, with_stream.
  cbn [buffer prevbuf buflen fp path lineno linelen].
  destruct pre as [|c pre].
  - cbn [length Z.of_nat Z.eqb].
    eexists _, pad, bl'. split; [reflexivity|]. repeat split; trivial; lia.
  - destruct (Z.eqb_spec (Z.of_nat (length (c :: pre))) 0) as [H0|_];
      [simpl in H0; lia|].
    rewrite Hstr. cbn [mbind option_bind].
    eexists _, pad, bl'. split; [reflexivity|]. repeat split; trivial; lia.
Qed.

(** The round in which the device fails. *)
Lemma read_loop_error
    (fuel : nat) (er : bool) (pa : option string)
    (ln ll : Z) (b pb : block) (bl i : Z) (w : world) :
  Z.of_nat (length b) = bl -> Z.of_nat (length pb) = bl ->
  1 <= bl <= SIZE_MAX -> 0 <= i < bl -> i + 1 < 2 ^ 63 ->
  exists b' pad bl',
    text_file_read_loop (S fuel)
      (Handle (Some (Stream [] true false er)) pa ln ll
              (Some b) (Some pb) bl) i w
    = Some (None,
            Handle (Some (Stream [] true false true)) pa ln ll
                   (Some b') (Some (pb ++ pad)) bl',
            set_errno HVSC_ERR_IO w)
    /\ Z.of_nat (length b') = bl'
    /\ Z.of_nat (length (pb ++ pad)) = bl'
    /\ bl <= bl' <= SIZE_MAX.
Proof.
  intros Hb Hpb Hbl Hi Hbound.
  cbn [text_file_read_loop buflen].
  destruct (resize_step_content (Stream [] true false er)
              pa ln ll b pb bl i w Hb Hpb Hbl Hi Hbound)
    as (padb & pad & bl' & -> & Hb' & Hpb' & Hbl' & Hi').
  cbn -[store cstring_at].
  eexists _, pad, bl'. split; [reflexivity|]. repeat split; trivial; lia.
Qed.

Lemma memcpy_all (dst src : block) (n : Z) :
  Z.of_nat (length dst) = n -> Z.of_nat (length src) = n ->
  memcpy dst src n = Some src.
Proof.
  intros Hd Hs. unfold memcpy.
  destruct (Z.leb_spec 0 n); [|lia].
  destruct (Z.leb_spec n (Z.of_nat (length dst))); [|lia].
  destruct (Z.leb_spec n (Z.of_nat (length src))); [|lia].
  cbn [andb]. rewrite take_ge, drop_ge, app_nil_r by lia. reflexivity.
Qed.

Lemma cstring_at_app (b pad : block) (s : string) :
  cstring_at b = Some s -> cstring_at (b ++ pad) = Some s.
Proof.
  revert s. induction b as [|[c|] b IH]; intros s; try discriminate.
  cbn [cstring_at app]. destruct (code c =? 0); [trivial|].
  destruct (cstring_at b) as [s'|]; [|discriminate].
  intros [= <-]. now rewrite (IH s').
Qed.

(** A read on a handle whose stream holds a line and its newline. *)
Lemma read_line_result
    (h : hvsc_text_file_t) (w : world) (f : FILE) (line rest : list ascii) :
  capacity_inv h -> readable h -> fp h = Some f ->
  pending f = line ++ LF :: rest ->
  Forall (fun c => c <> LF) line ->
  Forall (fun c => code c <> 0) line ->
  unread h + 1 < 2 ^ 63 ->
  exists b b' pad bl',
    buffer h = Some b /\
    hvsc_text_file_read h w
    = Some (Some (string_of_list_ascii (strip_cr line)),
            Handle (Some (Stream rest (faulty f) (eof_ind f) (err_ind f)))
                   (path h) (long_add (lineno h) 1)
                   (Z.of_nat (length (strip_cr line)))
                   (Some b') (Some (b ++ pad)) bl',
            w)
    /\ Z.of_nat (length b') = bl'
    /\ Z.of_nat (length (b ++ pad)) = bl'
    /\ buflen h <= bl' <= SIZE_MAX
    /\ cstring_at b' = Some (string_of_list_ascii (strip_cr line)).
Proof.
  destruct h as [fp0 pa ln ll b0 pb0 bl].
  unfold capacity_inv, readable, unread.
  cbn [buffer prevbuf buflen fp path lineno linelen].
  intros Hinv (_ & [b ->] & [pb ->]) -> Hpend Hlf Hnf Hbound.
  destruct Hinv as (Hb & Hpb & Hbl).
  destruct f as [pend fa eo er]. cbn [pending faulty eof_ind err_ind] in *.
  subst pend. rewrite length_app in Hbound. cbn [length] in Hbound.
  unfold hvsc_text_file_read.
  cbn [buffer prevbuf buflen fp path lineno linelen mbind option_bind pending].
  rewrite (memcpy_all pb b bl Hpb Hb). cbn [mbind option_bind].
  replace (S (length (line ++ LF :: rest)))
    with (length line + S (S (length rest)))%nat
    by (rewrite length_app; simpl; lia).
  destruct (read_loop_accumulate line (S (S (length rest))) (LF :: rest)
              fa eo er pa ln ll b b bl 0 w Hlf Hb Hb Hbl
              ltac:(lia) ltac:(lia))
    as (b1 & pad1 & bl1 & -> & Hb1 & Hpb1 & Hbl1 & Hi1 & Htake).
  cbn [Z.to_nat Nat.add take app] in Htake. rewrite Z.add_0_l in *.
  destruct (read_loop_newline (S (length rest)) rest fa eo er pa ln ll
              b1 (b ++ pad1) bl1 line w Hb1 Hpb1 ltac:(lia) Hi1
              ltac:(lia) Htake Hnf)
    as (b' & pad & bl' & -> & Hb' & Hpb' & Hbl' & Hstr).
  exists b, b', (pad1 ++ pad), bl'. rewrite app_assoc.
  repeat split; trivial; lia.
Qed.

(** X16: a read on a handle whose buffers have one capacity and whose
    stream holds a line of bytes other than NUL and newline, then a
    newline, returns exactly that line without the newline and without one
    carriage return before it, however long the line is; the line number
    goes up by one, the line length is the length of what is returned, the
    stream is left behind the newline and [hvsc_errno] is untouched. *)
Theorem text_file_read_line
    (h : hvsc_text_file_t) (w : world) (f : FILE) (line rest : list ascii) :
  capacity_inv h -> readable h -> fp h = Some f ->
  pending f = line ++ LF :: rest ->
  Forall (fun c => c <> LF) line ->
  Forall (fun c => code c <> 0) line ->
  unread h + 1 < 2 ^ 63 ->
  exists h',
    hvsc_text_file_read h w
    = Some (Some (string_of_list_ascii (strip_cr line)), h', w) /\
    lineno h' = long_add (lineno h) 1 /\
    linelen h' = Z.of_nat (length (strip_cr line)) /\
    fp h' = Some (Stream rest (faulty f) (eof_ind f) (err_ind f)) /\
    path h' = path h /\
    (cstring_at <$> buffer h')
    = Some (Some (string_of_list_ascii (strip_cr line))) /\
    capacity_inv h' /\ readable h' /\ buflen h <= buflen h'.
Proof.
  intros Hinv Hread Hfp Hpend Hlf Hnf Hbound.
  pose proof Hinv as Hinv0. unfold capacity_inv in Hinv0.
  destruct (read_line_result h w f line rest Hinv Hread Hfp Hpend Hlf Hnf
              Hbound)
    as (b & b' & pad & bl' & Hbuf & -> & Hb' & Hpb' & Hbl' & Hstr).
  eexists. split; [reflexivity|].
  cbn [lineno linelen fp path buffer fmap option_fmap option_map].
  rewrite Hbuf in Hinv0. destruct (prevbuf h); [|contradiction].
  destruct Hinv0 as (_ & _ & Hbl).
  rewrite Hstr. repeat split; try (eexists; reflexivity); cbn [buflen]; lia.
Qed.

Lemma text_file_read_line_witness :
  let h := (hvsc_text_file_open example_fs "crlf.txt"
              (Handle None None 0 0 None None 0) world0).1.2 in
  exists h',
    hvsc_text_file_read h world0 = Some (Some "line1", h', world0) /\
    lineno h' = 1 /\ linelen h' = 5.
Proof.
  intros h.
  destruct (text_file_read_line h world0
              (Stream two_lines_crlf false false false)
              (list_ascii_of_string "line1" ++ [CR])
              (list_ascii_of_string "line2" ++ [LF]))
    as (h' & Heq & Hln & Hll & _).
  - vm_compute. intuition discriminate.
  - vm_compute. repeat split; eexists; reflexivity.
  - reflexivity.
  - reflexivity.
  - repeat constructor; discriminate.
  - repeat constructor; discriminate.
  - vm_compute. reflexivity.
  - exists h'. split; [exact Heq|]. split; [exact Hln | exact Hll].
Defined.

(** X17: after such a read the previous-line buffer holds what the line
    buffer held before it: the string the call before returned. *)
Theorem text_file_read_previous
    (h : hvsc_text_file_t) (w : world) (f : FILE) (line rest : list ascii)
    (b : block) (s : string) :
  capacity_inv h -> readable h -> fp h = Some f ->
  pending f = line ++ LF :: rest ->
  Forall (fun c => c <> LF) line ->
  Forall (fun c => code c <> 0) line ->
  unread h + 1 < 2 ^ 63 ->
  buffer h = Some b -> cstring_at b = Some s ->
  exists r h' pb',
    hvsc_text_file_read h w = Some (r, h', w) /\
    prevbuf h' = Some pb' /\ cstring_at pb' = Some s /\
    take (length b) pb' = b.
Proof.
  intros Hinv Hread Hfp Hpend Hlf Hnf Hbound Hbuf Hs.
  destruct (read_line_result h w f line rest Hinv Hread Hfp Hpend Hlf Hnf
              Hbound)
    as (b0 & b' & pad & bl' & Hbuf0 & -> & _).
  rewrite Hbuf in Hbuf0. injection Hbuf0 as <-.
  eexists _, _, (b ++ pad). split; [reflexivity|].
  cbn [prevbuf]. repeat split.
  - now apply cstring_at_app.
  - apply take_app_length.
Qed.

Lemma text_file_read_previous_witness :
  let r := hvsc_text_file_open example_fs "crlf.txt"
             (Handle None None 0 0 None None 0) world0 in
  exists b h' pb',
    buffer r.1.2 = Some b /\ cstring_at b = Some EmptyString /\
    hvsc_text_file_read r.1.2 r.2 = Some (Some "line1", h', r.2) /\
    prevbuf h' = Some pb' /\ cstring_at pb' = Some EmptyString.
Proof.
  intros r.
  destruct (buffer r.1.2) as [b|] eqn:Hbuf; [|discriminate].
  destruct (text_file_read_previous r.1.2 r.2
              (Stream two_lines_crlf false false false)
              (list_ascii_of_string "line1" ++ [CR])
              (list_ascii_of_string "line2" ++ [LF]) b EmptyString)
    as (x & h' & pb' & Heq & Hpb & Hstr & _).
  - vm_compute. intuition discriminate.
  - vm_compute. repeat split; eexists; reflexivity.
  - reflexivity.
  - reflexivity.
  - repeat constructor; discriminate.
  - repeat constructor; discriminate.
  - vm_compute. reflexivity.
  - exact Hbuf.
  - vm_compute in Hbuf. injection Hbuf as <-. reflexivity.
  - exists b, h', pb'.
    assert (cstring_at b = Some EmptyString) as Hb
      by (vm_compute in Hbuf; injection Hbuf as <-; reflexivity).
    assert (x = Some "line1") as ->.
    { assert (exists h2 w2, hvsc_text_file_read r.1.2 r.2
                            = Some (Some "line1", h2, w2)) as (h2 & w2 & H2)
        by (vm_compute; eexists _, _; reflexivity).
      rewrite Heq in H2. now injection H2 as ->. }
    repeat split; trivial.
Defined.

(** A read on a handle whose stream ends without a newline. *)
Lemma read_eof_result
    (pa : option string) (ln ll : Z) (b pb : block) (bl : Z)
    (line : list ascii) (eo er : bool) (w : world) :
  Z.of_nat (length b) = bl -> Z.of_nat (length pb) = bl ->
  1 <= bl <= SIZE_MAX ->
  Forall (fun c => c <> LF) line ->
  Forall (fun c => code c <> 0) line ->
  Z.of_nat (length line) + 1 < 2 ^ 63 ->
  exists b' pad bl',
    hvsc_text_file_read
      (Handle (Some (Stream line false eo er)) pa ln ll (Some b) (Some pb) bl)
      w
    = Some (match line with
            | [] => None
            | _ => Some (string_of_list_ascii line)
            end,
            Handle (Some (Stream [] false true er)) pa ln ll
                   (Some b') (Some (b ++ pad)) bl',
            w)
    /\ Z.of_nat (length b') = bl'
    /\ Z.of_nat (length (b ++ pad)) = bl'
    /\ bl <= bl' <= SIZE_MAX.
Proof.
  intros Hb Hpb Hbl Hlf Hnf Hbound.
  unfold hvsc_text_file_read.
  cbn [buffer prevbuf buflen fp path lineno linelen mbind option_bind pending].
  rewrite (memcpy_all pb b bl Hpb Hb). cbn [mbind option_bind].
  replace (S (length line)) with (length line + 1)%nat by lia.
  destruct (read_loop_accumulate line 1 [] false eo er pa ln ll b b bl 0 w
              Hlf Hb Hb Hbl ltac:(lia) ltac:(lia))
    as (b1 & pad1 & bl1 & Hacc & Hb1 & Hpb1 & Hbl1 & Hi1 & Htake).
  rewrite app_nil_r in Hacc. rewrite Hacc. clear Hacc.
  cbn [Z.to_nat Nat.add take app] in Htake. rewrite Z.add_0_l in *.
  destruct (read_loop_eof 0 eo er pa ln ll b1 (b ++ pad1) bl1 line w
              Hb1 Hpb1 ltac:(lia) Hi1 ltac:(lia) Htake Hnf)
    as (b' & pad & bl' & -> & Hb' & Hpb' & Hbl' & _).
  exists b', (pad1 ++ pad), bl'. rewrite app_assoc.
  repeat split; trivial; lia.
Qed.

(** X18: a read on a handle whose stream holds a last line without a
    newline, and does not fail, returns that line as it is (a carriage
    return at its end is not removed) and leaves the line number and the
    line length alone; when nothing is left to read it returns [NULL]; in
    both cases [hvsc_errno] is untouched, and the read after it returns
    [NULL]. *)
Theorem text_file_read_last_line
    (h : hvsc_text_file_t) (w : world) (f : FILE) :
  capacity_inv h -> readable h -> fp h = Some f ->
  faulty f = false ->
  Forall (fun c => c <> LF) (pending f) ->
  Forall (fun c => code c <> 0) (pending f) ->
  unread h + 1 < 2 ^ 63 ->
  exists h' h'',
    hvsc_text_file_read h w
    = Some (match pending f with
            | [] => None
            | _ => Some (string_of_list_ascii (pending f))
            end, h', w) /\
    lineno h' = lineno h /\ linelen h' = linelen h /\
    capacity_inv h' /\
    hvsc_text_file_read h' w = Some (None, h'', w) /\
    lineno h'' = lineno h /\ capacity_inv h''.
Proof.
  destruct h as [fp0 pa ln ll b0 pb0 bl].
  unfold capacity_inv, readable, unread.
  cbn [buffer prevbuf buflen fp path lineno linelen].
  intros Hinv (_ & [b ->] & [pb ->]) -> Hfa Hlf Hnf Hbound.
  destruct Hinv as (Hb & Hpb & Hbl).
  destruct f as [line fa eo er]. cbn [pending faulty] in *. subst fa.
  destruct (read_eof_result pa ln ll b pb bl line eo er w Hb Hpb Hbl Hlf Hnf
              ltac:(lia))
    as (b1 & pad1 & bl1 & Heq1 & Hb1 & Hpb1 & Hbl1).
  destruct (read_eof_result pa ln ll b1 (b ++ pad1) bl1 [] true er w Hb1 Hpb1
              ltac:(lia) ltac:(constructor) ltac:(constructor)
              ltac:(simpl; lia))
    as (b2 & pad2 & bl2 & Heq2 & Hb2 & Hpb2 & Hbl2).
  eexists _, _. split; [exact Heq1|].
  cbn [buffer prevbuf buflen fp path lineno linelen].
  split; [reflexivity|]. split; [reflexivity|].
  split; [repeat split; trivial; lia|].
  split; [exact Heq2|].
  cbn [buffer prevbuf buflen fp path lineno linelen].
  repeat split; trivial; lia.
Qed.

Lemma text_file_read_last_line_witness :
  let h := (hvsc_text_file_open example_fs "last.txt"
              (Handle None None 0 0 None None 0) world0).1.2 in
  exists h' h'',
    hvsc_text_file_read h world0 = Some (Some "lastline", h', world0) /\
    lineno h' = 0 /\
    hvsc_text_file_read h' world0 = Some (None, h'', world0).
Proof.
  intros h.
  destruct (text_file_read_last_line h world0
              (Stream lastline_bytes false false false))
    as (h' & h'' & Heq & Hln & _ & _ & Heq' & _).
  - vm_compute. intuition discriminate.
  - vm_compute. repeat split; eexists; reflexivity.
  - reflexivity.
  - reflexivity.
  - repeat constructor; discriminate.
  - repeat constructor; discriminate.
  - vm_compute. reflexivity.
  - exists h', h''. split; [exact Heq|]. split; [exact Hln | exact Heq'].
Defined.

(** X19: when the device fails before a newline is found, the read
    returns [NULL] and sets the I/O code, whatever bytes it had taken from
    the stream by then; the line number stays. *)
Theorem text_file_read_device_error
    (h : hvsc_text_file_t) (w : world) (f : FILE) :
  capacity_inv h -> readable h -> fp h = Some f ->
  faulty f = true -> eof_ind f = false ->
  Forall (fun c => c <> LF) (pending f) ->
  unread h + 1 < 2 ^ 63 ->
  exists h',
    hvsc_text_file_read h w = Some (None, h', set_errno HVSC_ERR_IO w) /\
    lineno h' = lineno h /\ linelen h' = linelen h /\
    capacity_inv h' /\ buflen h <= buflen h'.
Proof.
  destruct h as [fp0 pa ln ll b0 pb0 bl].
  unfold capacity_inv, readable, unread.
  cbn [buffer prevbuf buflen fp path lineno linelen].
  intros Hinv (_ & [b ->] & [pb ->]) -> Hfa Heo Hlf Hbound.
  destruct Hinv as (Hb & Hpb & Hbl).
  destruct f as [line fa eo er]. cbn [pending faulty eof_ind] in *.
  subst fa eo.
  unfold hvsc_text_file_read.
  cbn [buffer prevbuf buflen fp path lineno linelen mbind option_bind pending].
  rewrite (memcpy_all pb b bl Hpb Hb). cbn [mbind option_bind].
  replace (S (length line)) with (length line + 1)%nat by lia.
  destruct (read_loop_accumulate line 1 [] true false er pa ln ll b b bl 0 w
              Hlf Hb Hb Hbl ltac:(lia) ltac:(lia))
    as (b1 & pad1 & bl1 & Hacc & Hb1 & Hpb1 & Hbl1 & Hi1 & _).
  rewrite app_nil_r in Hacc. rewrite Hacc. clear Hacc.
  rewrite Z.add_0_l in *.
  destruct (read_loop_error 0 er pa ln ll b1 (b ++ pad1) bl1
              (Z.of_nat (length line)) w Hb1 Hpb1 ltac:(lia) ltac:(lia)
              ltac:(lia))
    as (b' & pad & bl' & -> & Hb' & Hpb' & Hbl').
  eexists. split; [reflexivity|].
  cbn [buffer prevbuf buflen fp path lineno linelen].
  repeat split; trivial; lia.
Qed.

Lemma text_file_read_device_error_witness :
  let h := (hvsc_text_file_open example_fs "bad.bin"
              (Handle None None 0 0 None None 0) world0).1.2 in
  exists h',
    hvsc_text_file_read h world0 = Some (None, h', set_errno HVSC_ERR_IO world0).
Proof.
  intros h.
  destruct (text_file_read_device_error h world0
              (Stream lastline_bytes true false false))
    as (h' & Heq & _).
  - vm_compute. intuition discriminate.
  - vm_compute. repeat split; eexists; reflexivity.
  - reflexivity.
  - reflexivity.
  - reflexivity.
  - repeat constructor; discriminate.
  - vm_compute. reflexivity.
  - now exists h'.
Defined.

(** ** Paths, again *)

Lemma advance_empty (n : nat) : advance EmptyString n = EmptyString.
Proof. induction n as [|n IH]; simpl; trivial. Qed.

Lemma first_bytes_advance (n : nat) :
  forall p, (first_bytes n p ++ advance p n)%string = p.
Proof.
  unfold first_bytes.
  induction n as [|n IH]; intros [|c p]; simpl; try reflexivity.
  - apply advance_empty.
  - now rewrite IH.
Qed.

(** X20: [hvsc_path_strip_root] and [hvsc_path_is_hvsc] agree: from a path
    that is under the root the root is taken off, so that the root followed
    by the result is the path again; every other path comes back as it is.
    Either way the result is a block of its own and the root stays set. *)
Theorem strip_root_cases (p : string) (w : world) :
  heap_live (hvsc_path_strip_root p w).2 = heap_live w + 1 /\
  hvsc_root_path (hvsc_path_strip_root p w).2 = hvsc_root_path w /\
  (hvsc_path_is_hvsc p w = true ->
   exists r, hvsc_root_path w = Some r /\
             p = (r ++ (hvsc_path_strip_root p w).1)%string) /\
  (hvsc_path_is_hvsc p w = false -> (hvsc_path_strip_root p w).1 = p).
Proof.
  unfold hvsc_path_strip_root, hvsc_path_is_hvsc, root_bytes, hvsc_strdup, strlen.
  destruct (hvsc_root_path w) as [r|] eqn:Hroot.
  2: { cbn. rewrite Hroot. repeat split; discriminate. }
  destruct (Z.eqb_spec (Z.of_nat (String.length r)) 0) as [H0|H0].
  { destruct r; [|discriminate]. cbn [fst snd heap_live hvsc_root_path set_heap_live].
    rewrite Hroot. repeat split. intros _. now exists EmptyString. }
  destruct (Z.leb_spec (Z.of_nat (String.length p))
                       (Z.of_nat (String.length r))) as [Hle|Hlt].
  { cbn. rewrite Hroot. repeat split. discriminate. }
  rewrite Nat2Z.id.
  destruct (Z.eqb_spec (memcmp (bytes_of p) (bytes_of r) (String.length r)) 0)
    as [Hcmp|Hcmp];
    cbn [fst snd heap_live hvsc_root_path set_heap_live];
    rewrite ?Hroot; repeat split; try discriminate.
  intros _. exists r. split; [reflexivity|].
  apply memcmp_prefix_iff in Hcmp; [|lia].
  transitivity (first_bytes (String.length r) p
                ++ advance p (String.length r))%string;
    [symmetry; apply first_bytes_advance | now rewrite Hcmp].
Qed.

Lemma strip_root_cases_witness :
  exists r,
    hvsc_root_path hvsc_world = Some r /\
    "/hvsc/MUSICIANS/H/Hubbard_Rob/Commando.sid"
    = (r ++ (hvsc_path_strip_root
               "/hvsc/MUSICIANS/H/Hubbard_Rob/Commando.sid" hvsc_world).1)%string.
Proof.
  apply (proj1 (proj2 (proj2
           (strip_root_cases "/hvsc/MUSICIANS/H/Hubbard_Rob/Commando.sid"
              hvsc_world)))).
  reflexivity.
Defined.

(** X21: once a root is set, every path that [hvsc_paths_join] makes from
    the root is under the root for [hvsc_path_is_hvsc], the three database
    paths that [hvsc_set_paths] derives among them, while the root itself
    is not. *)
Theorem joined_paths_under_root
    (W : bool) (sldb stil bugs root : string) (w0 : world) :
  let w := hvsc_set_paths W sldb stil bugs root w0 in
  (forall x w', hvsc_root_path w' = Some root ->
     exists j, (hvsc_paths_join W (Some root) (Some x) w').1 = Some j /\
               hvsc_path_is_hvsc j w' = true) /\
  (exists a b c,
     hvsc_sldb_path w = Some a /\ hvsc_stil_path w = Some b /\
     hvsc_bugs_path w = Some c /\
     hvsc_path_is_hvsc a w = true /\ hvsc_path_is_hvsc b w = true /\
     hvsc_path_is_hvsc c w = true) /\
  hvsc_path_is_hvsc root w = false.
Proof.
  intros w.
  assert (forall x w', hvsc_root_path w' = Some root ->
            hvsc_path_is_hvsc (root ++ String (dir_separator W) x) w' = true)
    as Hunder.
  { intros x w' Hroot. unfold hvsc_path_is_hvsc, strlen. rewrite Hroot.
    rewrite length_append. cbn [String.length].
    destruct (Z.leb_spec (Z.of_nat (String.length root + S (String.length x)))
                         (Z.of_nat (String.length root))); [lia|].
    rewrite Nat2Z.id. apply Z.eqb_eq, memcmp_prefix_iff.
    - rewrite length_append. lia.
    - apply first_bytes_append. }
  split; [|split].
  - intros x w' Hroot. eexists. split; [reflexivity|]. now apply Hunder.
  - eexists _, _, _. repeat split; now apply Hunder.
  - subst w. unfold hvsc_path_is_hvsc. rewrite set_paths_root.
    now rewrite Z.leb_refl.
Qed.

Lemma joined_paths_under_root_witness :
  exists j,
    (hvsc_paths_join false (Some "/hvsc") (Some "DEMOS/A-F/Axel_F.sid")
       hvsc_world).1 = Some j /\
    hvsc_path_is_hvsc j hvsc_world = true.
Proof.
  apply (proj1 (joined_paths_under_root false "DOCUMENTS/Songlengths.md5"
                  "DOCUMENTS/STIL.txt" "DOCUMENTS/BUGlist.txt" "/hvsc" world0)
           "DEMOS/A-F/Axel_F.sid" hvsc_world).
  reflexivity.
Defined.

(** X22: [hvsc_set_paths] allocates four blocks and sets all four paths;
    [hvsc_free_paths] after it frees the four and clears all four paths,
    and a second [hvsc_free_paths] changes nothing. [hvsc_set_paths] itself
    frees nothing: set a second time, the four blocks of the first time
    are still allocated after [hvsc_free_paths]. *)
Theorem set_and_free_paths
    (W : bool) (sldb stil bugs root root' : string) (w : world) :
  let w1 := hvsc_set_paths W sldb stil bugs root w in
  let w2 := hvsc_free_paths w1 in
  let w3 := hvsc_free_paths (hvsc_set_paths W sldb stil bugs root' w1) in
  heap_live w1 = heap_live w + 4 /\
  (is_Some (hvsc_root_path w1) /\ is_Some (hvsc_sldb_path w1) /\
   is_Some (hvsc_stil_path w1) /\ is_Some (hvsc_bugs_path w1)) /\
  heap_live w2 = heap_live w /\
  (hvsc_root_path w2 = None /\ hvsc_sldb_path w2 = None /\
   hvsc_stil_path w2 = None /\ hvsc_bugs_path w2 = None) /\
  hvsc_free_paths w2 = w2 /\
  hvsc_errno w2 = hvsc_errno w /\
  heap_live w3 = heap_live w + 4.
Proof.
  destruct w as [e r s t b hl so]. cbn.
  repeat split; try lia; try (eexists; reflexivity).
Qed.

(** ** Resources of the reader *)

(** X23: a successful [hvsc_text_file_open] takes three blocks and one
    stream and leaves [hvsc_errno] alone, a failed one takes nothing and
    sets the I/O code; [hvsc_text_file_close] after either gives back
    exactly what was taken, and closing the closed handle again changes
    nothing. Any handle with a path, both buffers and a stream gives back
    three blocks and one stream when it is closed. *)
Theorem text_file_open_close
    (fs : filesystem) (p : string) (h : hvsc_text_file_t) (w : world) :
  let r := hvsc_text_file_open fs p h w in
  let c := hvsc_text_file_close r.1.2 r.2 in
  (r.1.1 = true ->
   heap_live r.2 = heap_live w + 3 /\ streams_open r.2 = streams_open w + 1 /\
   hvsc_errno r.2 = hvsc_errno w) /\
  (r.1.1 = false -> r.2 = set_errno HVSC_ERR_IO w) /\
  heap_live c.2 = heap_live w /\ streams_open c.2 = streams_open w /\
  hvsc_text_file_close c.1 c.2 = c /\
  (readable h -> is_Some (path h) ->
   heap_live (hvsc_text_file_close h w).2 = heap_live w - 3 /\
   streams_open (hvsc_text_file_close h w).2 = streams_open w - 1).
Proof.
  assert (readable h -> is_Some (path h) ->
          heap_live (hvsc_text_file_close h w).2 = heap_live w - 3 /\
          streams_open (hvsc_text_file_close h w).2 = streams_open w - 1)
    as Hclose.
  { intros ([? Hf] & [? Hb] & [? Hpb]) [? Hp]. unfold hvsc_text_file_close.
    rewrite Hf, Hb, Hpb, Hp. cbn. lia. }
  unfold hvsc_text_file_open.
  destruct (fopen fs p) as [f|]; cbn;
    repeat split; try lia; try discriminate; apply Hclose; assumption.
Qed.

Lemma text_file_open_close_witness :
  let r := hvsc_text_file_open example_fs "crlf.txt"
             (Handle None None 0 0 None None 0) world0 in
  heap_live r.2 = 3 /\ streams_open r.2 = 1 /\ hvsc_errno r.2 = 0.
Proof.
  apply (proj1 (text_file_open_close example_fs "crlf.txt"
                  (Handle None None 0 0 None None 0) world0)).
  reflexivity.
Defined.

(** ** Error codes *)

(** X24: [hvsc_strerror] gives the unknown-code message exactly for the
    codes outside the table; inside it every code has its own row of the
    table, and no two codes share a message. *)
Theorem strerror_codes (n m : Z) :
  (hvsc_strerror n = invalid_err_msg <-> n < 0 \/ HVSC_ERR_CODE_COUNT <= n) /\
  (0 <= n < HVSC_ERR_CODE_COUNT ->
   hvsc_err_messages !! Z.to_nat n = Some (hvsc_strerror n)) /\
  (0 <= n < HVSC_ERR_CODE_COUNT -> 0 <= m < HVSC_ERR_CODE_COUNT ->
   hvsc_strerror n = hvsc_strerror m -> n = m).
Proof.
  assert (forall k, 0 <= k < HVSC_ERR_CODE_COUNT ->
            k = 0 \/ k = 1 \/ k = 2 \/ k = 3 \/ k = 4 \/ k = 5 \/ k = 6)
    as Hcases by (unfold HVSC_ERR_CODE_COUNT; simpl; lia).
  split; [|split].
  - unfold hvsc_strerror.
    destruct (Z.ltb_spec n 0); [split; [lia | reflexivity]|].
    destruct (Z.leb_spec HVSC_ERR_CODE_COUNT n); [split; [lia | reflexivity]|].
    cbn [orb]. split; [|lia]. intros Hmsg. exfalso.
    destruct (Hcases n ltac:(lia)) as [->|[->|[->|[->|[->|[->| ->]]]]]];
      discriminate.
  - intros Hn.
    destruct (Hcases n Hn) as [->|[->|[->|[->|[->|[->| ->]]]]]]; reflexivity.
  - intros Hn Hm.
    destruct (Hcases n Hn) as [->|[->|[->|[->|[->|[->| ->]]]]]];
      destruct (Hcases m Hm) as [->|[->|[->|[->|[->|[->| ->]]]]]];
      intros Heq; try reflexivity; discriminate.
Qed.

Lemma strerror_codes_witness :
  hvsc_err_messages !! Z.to_nat HVSC_ERR_TIMESTAMP
  = Some (hvsc_strerror HVSC_ERR_TIMESTAMP).
Proof.
  apply (proj1 (proj2 (strerror_codes HVSC_ERR_TIMESTAMP 0))).
  vm_compute. intuition discriminate.
Defined.

(** X25: whatever the text, [hvsc_parse_simple_timestamp] either leaves the
    globals exactly as they were and stores a scan position, or returns -1
    and changes [hvsc_errno], to the malformed-timestamp code, and nothing
    else; it never sets the code without returning -1. *)
Theorem timestamp_outcomes (t : string) (endptr : option string) (w : world) :
  let r := hvsc_parse_simple_timestamp t endptr w in
  (r.2 = w /\ is_Some r.1.2) \/
  (r.1.1 = -1 /\ r.2 = set_errno HVSC_ERR_TIMESTAMP w).
Proof.
  unfold hvsc_parse_simple_timestamp.
  destruct (minutes_loop t 0) as [m t1].
  destruct (negb (Ascii.eqb (deref t1) ":")); [now right|].
  destruct (seconds_loop (next t1) 0) as [[s t2]|]; [|now right].
  destruct (Ascii.eqb (deref t2) ".").
  - destruct (fraction_loop (next t2) 0 0) as [[f fd] t3].
    destruct (fd =? 0); [now right | left; split; [reflexivity | now eexists]].
  - left. split; [reflexivity | now eexists].
Qed.
